(** * P2PManager: a shallow embedding of src/p2p/p2p_manager.cpp

    The peer-to-peer manager of the EOS testing project keeps a table of
    peer connections, hands packets to the EOS SDK and drains received
    packets on the game thread.  The C++ file is compiled in one of two
    ways: with [EOS_STUB_MODE] defined (no SDK, simulated answers) or
    against the real SDK.  Both bodies of every [#ifdef] are embedded
    here, selected by the boolean [EOS_STUB_MODE].

    Conventions of the embedding:
    - an [EOS_ProductUserId] is a pointer; it is an [N], [nullptr] is 0;
    - [uint8_t], [uint32_t] and [uint64_t] values are [N] with the
      wrap-around written where the code does arithmetic on them;
    - [m_connections] (a [std::unordered_map]) is a [gmap]; its iteration
      order is the one of [map_to_list], nothing below depends on it;
    - the SDK is a black box with a state of type [T]; its entry points
      are the methods of the class [EOS_SDK];
    - every observable effect (a call into the SDK, a call of one of the
      three [std::function] handlers) is appended to a trace of [Event]s;
      a handler is an observer: it does not call back into the manager;
    - diagnostic output on [std::cout] and the two mutexes are not part
      of the model. *)

From stdpp Require Import base numbers option list gmap strings.
From Stdlib.Strings Require Import Byte.

Local Open Scope N_scope.

(** ** Machine integers *)

Definition wrap8 (n : N) : N := n mod 2 ^ 8.
Definition wrap32 (n : N) : N := n mod 2 ^ 32.
Definition wrap64 (n : N) : N := n mod 2 ^ 64.

(** ** Data model (include/eos_testing/p2p/p2p_manager.hpp) *)

Abbreviation EOS_ProductUserId := N (only parsing).
Definition nullptr : EOS_ProductUserId := 0.

Inductive PacketReliability :=
  | UnreliableUnordered
  | ReliableUnordered
  | ReliableOrdered.

Inductive ConnectionStatus :=
  | Disconnected
  | Connecting
  | Connected
  | ConnectionFailed.

Global Instance ConnectionStatus_eq_dec : EqDecision ConnectionStatus.
Proof. solve_decision. Defined.

Record PeerConnection := mkPeerConnection {
  peer_id : EOS_ProductUserId;
  display_name : string;
  status : ConnectionStatus;
  is_relay : bool;
  ping_ms : N;
  bytes_sent : N;
  bytes_received : N
}.

(** The default member initialisers of [struct PeerConnection]. *)
Definition PeerConnection_default : PeerConnection :=
  {| peer_id := nullptr; display_name := ""; status := Disconnected;
     is_relay := false; ping_ms := 0; bytes_sent := 0; bytes_received := 0 |}.

Record IncomingPacket := mkIncomingPacket {
  sender : EOS_ProductUserId;
  channel : N;
  data : list byte
}.

Record P2PConfig := mkP2PConfig {
  socket_name : string;
  allow_relay : bool;
  max_packet_size : N;
  num_channels : N
}.

Definition P2PConfig_default : P2PConfig :=
  {| socket_name := "GameSocket"; allow_relay := true;
     max_packet_size := 1170; num_channels := 2 |}.

(** [std::vector<uint8_t>::resize]: truncate, or pad with zero bytes. *)
Definition vector_resize (n : nat) (v : list byte) : list byte :=
  take n v ++ replicate (n - length v) x00.

(** ** The SDK seen from the manager *)

Inductive EOS_EResult :=
  | EOS_Success
  | EOS_Failure (code : positive).

Global Instance EOS_EResult_eq_dec : EqDecision EOS_EResult.
Proof. solve_decision. Defined.

Inductive EOS_EPacketReliability :=
  | EOS_PR_UnreliableUnordered
  | EOS_PR_ReliableUnordered
  | EOS_PR_ReliableOrdered.

Record EOS_P2P_SocketId := { SocketName : string }.

Record EOS_P2P_AcceptConnectionOptions := {
  accept_LocalUserId : EOS_ProductUserId;
  accept_RemoteUserId : EOS_ProductUserId;
  accept_SocketId : EOS_P2P_SocketId
}.

Record EOS_P2P_CloseConnectionOptions := {
  close_LocalUserId : EOS_ProductUserId;
  close_RemoteUserId : EOS_ProductUserId;
  close_SocketId : EOS_P2P_SocketId
}.

(** [Data] is the caller's pointer: [None] is a null pointer, [Some l] a
    buffer holding [l]. *)
Record EOS_P2P_SendPacketOptions := {
  send_LocalUserId : EOS_ProductUserId;
  send_RemoteUserId : EOS_ProductUserId;
  send_SocketId : EOS_P2P_SocketId;
  send_Channel : N;
  send_DataLengthBytes : N;
  send_Data : option (list byte);
  send_bAllowDelayedDelivery : bool;
  send_Reliability : EOS_EPacketReliability
}.

Record EOS_P2P_ReceivePacketOptions := {
  recv_LocalUserId : EOS_ProductUserId;
  recv_MaxDataSizeBytes : N
}.

(** What [EOS_P2P_ReceivePacket] writes through its out-pointers. *)
Record ReceivedPacket := {
  rp_result : EOS_EResult;
  rp_sender : EOS_ProductUserId;
  rp_channel : N;
  rp_written : list byte;
  rp_bytes_received : N
}.

Inductive NotifyKind :=
  | PeerConnectionRequest
  | PeerConnectionEstablished
  | PeerConnectionClosed.

(** The SDK headers are not part of the repository: the entry points the
    manager calls are taken as the methods of an interface over the
    SDK's own state [T]. *)
Class EOS_SDK (T : Type) := {
  EOS_P2P_SOCKETID_SOCKETNAME_SIZE : nat;
  EOS_P2P_AcceptConnection : T → EOS_P2P_AcceptConnectionOptions → T;
  EOS_P2P_CloseConnection : T → EOS_P2P_CloseConnectionOptions → T;
  EOS_P2P_SendPacket : T → EOS_P2P_SendPacketOptions → EOS_EResult * T;
  EOS_P2P_GetNextReceivedPacketSize :
    T → EOS_ProductUserId → EOS_EResult * N * T;
  EOS_P2P_ReceivePacket : T → EOS_P2P_ReceivePacketOptions → ReceivedPacket * T;
  EOS_P2P_AddNotify : T → NotifyKind → EOS_ProductUserId → EOS_P2P_SocketId → T
}.

(** ** Observable effects *)

Inductive Event :=
  | Call_on_connection_established (peer : EOS_ProductUserId) (st : ConnectionStatus)
  | Call_on_connection_closed (peer : EOS_ProductUserId) (st : ConnectionStatus)
  | Call_on_packet_received (packet : IncomingPacket)
  | Sdk_AcceptConnection (o : EOS_P2P_AcceptConnectionOptions)
  | Sdk_CloseConnection (o : EOS_P2P_CloseConnectionOptions)
  | Sdk_SendPacket (o : EOS_P2P_SendPacketOptions)
  | Sdk_GetNextReceivedPacketSize (local_user : EOS_ProductUserId)
  | Sdk_ReceivePacket (o : EOS_P2P_ReceivePacketOptions)
  | Sdk_AddNotify (k : NotifyKind) (local_user : EOS_ProductUserId)
      (s : EOS_P2P_SocketId).

(** An event is a call into the transport (the SDK's P2P interface). *)
Definition is_transport_call (e : Event) : bool :=
  match e with
  | Call_on_connection_established _ _
  | Call_on_connection_closed _ _
  | Call_on_packet_received _ => false
  | _ => true
  end.

(** An event is a call of one of the consumer's handlers. *)
Definition is_handler_call (e : Event) : bool := negb (is_transport_call e).

(** ** State *)

(** [class P2PManager].  A [std::function] field is [true] when it holds
    a handler. *)
Record P2PManager := mkP2PManager {
  m_initialized : bool;
  m_config : P2PConfig;
  m_connections : gmap EOS_ProductUserId PeerConnection;
  m_incoming_packets : list IncomingPacket;
  on_connection_established : bool;
  on_connection_closed : bool;
  on_packet_received : bool
}.

(** The manager as its constructor leaves it. *)
Definition P2PManager_default : P2PManager :=
  {| m_initialized := false; m_config := P2PConfig_default;
     m_connections := ∅; m_incoming_packets := [];
     on_connection_established := false; on_connection_closed := false;
     on_packet_received := false |}.

(** The part of [AuthManager] the P2P manager reads. *)
Record AuthManager := mkAuthManager {
  m_logged_in : bool;
  m_product_user_id : EOS_ProductUserId
}.

Definition is_logged_in (a : AuthManager) : bool := m_logged_in a.
Definition get_product_user_id (a : AuthManager) : EOS_ProductUserId :=
  m_product_user_id a.

(** The three singletons the code reaches: the manager itself,
    [AuthManager::instance()] and the handle of [Platform::instance()]
    ([None] is a null handle, [Some t] a live SDK in state [t]). *)
Record World (T : Type) := mkWorld {
  p2p : P2PManager;
  auth : AuthManager;
  get_handle : option T
}.
Arguments mkWorld {T} _ _ _.
Arguments p2p {T} _.
Arguments auth {T} _.
Arguments get_handle {T} _.

Definition set_p2p {T} (f : P2PManager → P2PManager) (w : World T) : World T :=
  mkWorld (f (p2p w)) (auth w) (get_handle w).

Definition set_handle {T} (h : option T) (w : World T) : World T :=
  mkWorld (p2p w) (auth w) h.

Definition with_initialized (b : bool) (m : P2PManager) : P2PManager :=
  mkP2PManager b (m_config m) (m_connections m) (m_incoming_packets m)
    (on_connection_established m) (on_connection_closed m) (on_packet_received m).

Definition with_config (c : P2PConfig) (m : P2PManager) : P2PManager :=
  mkP2PManager (m_initialized m) c (m_connections m) (m_incoming_packets m)
    (on_connection_established m) (on_connection_closed m) (on_packet_received m).

Definition with_connections
    (f : gmap EOS_ProductUserId PeerConnection → gmap EOS_ProductUserId PeerConnection)
    (m : P2PManager) : P2PManager :=
  mkP2PManager (m_initialized m) (m_config m) (f (m_connections m))
    (m_incoming_packets m)
    (on_connection_established m) (on_connection_closed m) (on_packet_received m).

Definition with_incoming_packets (q : list IncomingPacket) (m : P2PManager) : P2PManager :=
  mkP2PManager (m_initialized m) (m_config m) (m_connections m) q
    (on_connection_established m) (on_connection_closed m) (on_packet_received m).

Definition add_bytes_sent (n : N) (c : PeerConnection) : PeerConnection :=
  mkPeerConnection (peer_id c) (display_name c) (status c) (is_relay c)
    (ping_ms c) (wrap64 (bytes_sent c + n)) (bytes_received c).

Definition add_bytes_received (n : N) (c : PeerConnection) : PeerConnection :=
  mkPeerConnection (peer_id c) (display_name c) (status c) (is_relay c)
    (ping_ms c) (bytes_sent c) (wrap64 (bytes_received c + n)).

Definition with_status (st : ConnectionStatus) (c : PeerConnection) : PeerConnection :=
  mkPeerConnection (peer_id c) (display_name c) st (is_relay c)
    (ping_ms c) (bytes_sent c) (bytes_received c).

(** ** A state-and-trace monad for the member functions *)

Definition Op (T A : Type) : Type := World T → A * World T * list Event.

Definition ret {T A} (a : A) : Op T A := λ w, (a, w, []).

Definition bind {T A B} (m : Op T A) (k : A → Op T B) : Op T B :=
  λ w, let '(a, w1, t1) := m w in
       let '(b, w2, t2) := k a w1 in
       (b, w2, t1 ++ t2).

Notation "'let*' x ':=' m 'in' k" := (bind m (λ x, k))
  (at level 10, x pattern, m at level 100, k at level 200).
Notation "m >> k" := (bind m (λ _, k))
  (at level 100, k at level 200, right associativity).

Definition gets {T A} (f : World T → A) : Op T A := λ w, (f w, w, []).
Definition modify {T} (f : World T → World T) : Op T unit := λ w, (tt, f w, []).
Definition emit {T} (e : Event) : Op T unit := λ w, (tt, w, [e]).
Definition when {T} (b : bool) (m : Op T unit) : Op T unit :=
  if b then m else ret tt.

Definition result_of {T A} (r : A * World T * list Event) : A := r.1.1.
Definition world_of {T A} (r : A * World T * list Event) : World T := r.1.2.
Definition trace_of {T A} (r : A * World T * list Event) : list Event := r.2.

(** Run [f] on every element of a list, in order. *)
Fixpoint for_each {T A} (f : A → Op T unit) (l : list A) : Op T unit :=
  match l with
  | [] => ret tt
  | x :: l' => f x >> for_each f l'
  end.

(** ** The member functions (src/p2p/p2p_manager.cpp) *)

(** [strncpy(dst, src.c_str(), n)] into a zero-filled buffer of [n + 1]
    characters: the characters of [src] before its first NUL, at most
    [n] of them. *)
Fixpoint strncpy (n : nat) (src : string) : string :=
  match n, src with
  | S n', String c src' =>
      if Ascii.eqb c Ascii.zero then EmptyString else String c (strncpy n' src')
  | _, _ => EmptyString
  end.

Definition to_sdk_reliability (r : PacketReliability) : EOS_EPacketReliability :=
  match r with
  | UnreliableUnordered => EOS_PR_UnreliableUnordered
  | ReliableUnordered => EOS_PR_ReliableUnordered
  | ReliableOrdered => EOS_PR_ReliableOrdered
  end.

(** The entry a connection request of the SDK build stores. *)
Definition connecting_entry (peer : EOS_ProductUserId) : PeerConnection :=
  {| peer_id := peer; display_name := ""; status := Connecting;
     is_relay := false; ping_ms := 0; bytes_sent := 0; bytes_received := 0 |}.

(** The entry the stub build stores for a simulated connection. *)
Definition stub_entry (peer : EOS_ProductUserId) : PeerConnection :=
  {| peer_id := peer; display_name := "StubPeer"; status := Connected;
     is_relay := false; ping_ms := 25; bytes_sent := 0; bytes_received := 0 |}.

(** The entry [handle_connection_established] stores for an unknown peer. *)
Definition established_entry (peer : EOS_ProductUserId) : PeerConnection :=
  {| peer_id := peer; display_name := ""; status := Connected;
     is_relay := false; ping_ms := 0; bytes_sent := 0; bytes_received := 0 |}.

(** The packet [receive_packets] builds from what the SDK wrote through
    its out-pointers: [data] was resized to [packet_size] zero bytes, the
    SDK wrote into it, and it is resized to the number of bytes received. *)
Definition received_packet (packet_size : N) (rp : ReceivedPacket) : IncomingPacket :=
  let buffer := vector_resize (N.to_nat packet_size)
                  (take (N.to_nat packet_size) (rp_written rp)) in
  {| sender := rp_sender rp; channel := wrap8 (rp_channel rp);
     data := vector_resize (N.to_nat (wrap32 (rp_bytes_received rp))) buffer |}.

(** The keys of the table whose entry is in [Connected] state, in
    iteration order. *)
Definition connected_peers (m : gmap EOS_ProductUserId PeerConnection)
    : list EOS_ProductUserId :=
  (filter (λ kv, status kv.2 = Connected) (map_to_list m)).*1.

Section P2PManager.
Context (EOS_STUB_MODE : bool) {T : Type} `{!EOS_SDK T}.

Definition socket_id_of (c : P2PConfig) : EOS_P2P_SocketId :=
  {| SocketName := strncpy (EOS_P2P_SOCKETID_SOCKETNAME_SIZE - 1) (socket_name c) |}.

(** One call into the SDK: the call is recorded and the SDK moves to
    its next state [t']. *)
Definition sdk_step (e : Event) (t' : T) : Op T unit :=
  emit e >> modify (set_handle (Some t')).

Definition register_callbacks : Op T unit :=
  if EOS_STUB_MODE then ret tt else
  let* platform := gets get_handle in
  match platform with
  | None => ret tt
  | Some t =>
      let* local := gets (λ w, get_product_user_id (auth w)) in
      let* cfg := gets (λ w, m_config (p2p w)) in
      let socket_id := socket_id_of cfg in
      let t1 := EOS_P2P_AddNotify t PeerConnectionRequest local socket_id in
      sdk_step (Sdk_AddNotify PeerConnectionRequest local socket_id) t1 >>
      let t2 := EOS_P2P_AddNotify t1 PeerConnectionEstablished local socket_id in
      sdk_step (Sdk_AddNotify PeerConnectionEstablished local socket_id) t2 >>
      let t3 := EOS_P2P_AddNotify t2 PeerConnectionClosed local socket_id in
      sdk_step (Sdk_AddNotify PeerConnectionClosed local socket_id) t3
  end.

Definition unregister_callbacks : Op T unit := ret tt.

Definition initialize (config : P2PConfig) : Op T bool :=
  let* initialized := gets (λ w, m_initialized (p2p w)) in
  if initialized then ret true else
  let* logged_in := gets (λ w, is_logged_in (auth w)) in
  if negb logged_in then ret false else
  modify (set_p2p (with_config config)) >>
  if EOS_STUB_MODE then
    modify (set_p2p (with_initialized true)) >> ret true
  else
    let* platform := gets get_handle in
    match platform with
    | None => ret false
    | Some _ =>
        register_callbacks >>
        modify (set_p2p (with_initialized true)) >> ret true
    end.

(** The option structs the member functions fill in before a call. *)
Definition accept_options (w : World T) (peer_id : EOS_ProductUserId)
    : EOS_P2P_AcceptConnectionOptions :=
  {| accept_LocalUserId := get_product_user_id (auth w);
     accept_RemoteUserId := peer_id;
     accept_SocketId := socket_id_of (m_config (p2p w)) |}.

Definition close_options (w : World T) (peer_id : EOS_ProductUserId)
    : EOS_P2P_CloseConnectionOptions :=
  {| close_LocalUserId := get_product_user_id (auth w);
     close_RemoteUserId := peer_id;
     close_SocketId := socket_id_of (m_config (p2p w)) |}.

Definition send_options (w : World T) (peer_id : EOS_ProductUserId)
    (data : option (list byte)) (size : N) (channel : N)
    (reliability : PacketReliability) : EOS_P2P_SendPacketOptions :=
  {| send_LocalUserId := get_product_user_id (auth w);
     send_RemoteUserId := peer_id;
     send_SocketId := socket_id_of (m_config (p2p w));
     send_Channel := channel; send_DataLengthBytes := size;
     send_Data := data; send_bAllowDelayedDelivery := true;
     send_Reliability := to_sdk_reliability reliability |}.

Definition accept_connections (peer_id : EOS_ProductUserId) : Op T unit :=
  let* initialized := gets (λ w, m_initialized (p2p w)) in
  if negb initialized then ret tt else
  if EOS_STUB_MODE then ret tt else
  let* platform := gets get_handle in
  match platform with
  | None => ret tt
  | Some t =>
      let* options := gets (λ w, accept_options w peer_id) in
      sdk_step (Sdk_AcceptConnection options) (EOS_P2P_AcceptConnection t options)
  end.

Definition send_packet (peer_id : EOS_ProductUserId) (data : option (list byte))
    (size : N) (channel : N) (reliability : PacketReliability) : Op T bool :=
  let* initialized := gets (λ w, m_initialized (p2p w)) in
  if negb initialized || (peer_id =? nullptr) || negb (bool_decide (is_Some data))
     || (size =? 0)
  then ret false else
  let* cfg := gets (λ w, m_config (p2p w)) in
  if max_packet_size cfg <? size then ret false else
  if EOS_STUB_MODE then
    modify (set_p2p (with_connections (alter (add_bytes_sent size) peer_id))) >>
    ret true
  else
    let* platform := gets get_handle in
    match platform with
    | None => ret false
    | Some t =>
        let* options :=
          gets (λ w, send_options w peer_id data size channel reliability) in
        let '(result, t') := EOS_P2P_SendPacket t options in
        sdk_step (Sdk_SendPacket options) t' >>
        if bool_decide (result = EOS_Success) then
          modify (set_p2p (with_connections (alter (add_bytes_sent size) peer_id))) >>
          ret true
        else ret false
    end.

(** The one-byte connection request marker of [connect_to_peer]. *)
Definition hello : list byte := [x01].

Definition connect_to_peer (peer_id : EOS_ProductUserId) : Op T unit :=
  let* initialized := gets (λ w, m_initialized (p2p w)) in
  if negb initialized || (peer_id =? nullptr) then ret tt else
  if EOS_STUB_MODE then
    modify (set_p2p (with_connections (insert peer_id (stub_entry peer_id)))) >>
    let* handler := gets (λ w, on_connection_established (p2p w)) in
    when handler (emit (Call_on_connection_established peer_id Connected))
  else
    send_packet peer_id (Some hello) (N.of_nat (length hello)) 0 ReliableOrdered >>
    modify (set_p2p (with_connections (insert peer_id (connecting_entry peer_id)))).

Definition disconnect_from_peer (peer_id : EOS_ProductUserId) : Op T unit :=
  let* initialized := gets (λ w, m_initialized (p2p w)) in
  if negb initialized || (peer_id =? nullptr) then ret tt else
  if EOS_STUB_MODE then
    modify (set_p2p (with_connections (delete peer_id))) >>
    let* handler := gets (λ w, on_connection_closed (p2p w)) in
    when handler (emit (Call_on_connection_closed peer_id Disconnected))
  else
    let* platform := gets get_handle in
    match platform with
    | None => ret tt
    | Some t =>
        let* options := gets (λ w, close_options w peer_id) in
        sdk_step (Sdk_CloseConnection options) (EOS_P2P_CloseConnection t options) >>
        modify (set_p2p (with_connections (delete peer_id)))
    end.

Definition disconnect_all : Op T unit :=
  let* peers := gets (λ w, (map_to_list (m_connections (p2p w))).*1) in
  for_each disconnect_from_peer peers.

Definition shutdown : Op T unit :=
  let* initialized := gets (λ w, m_initialized (p2p w)) in
  if negb initialized then ret tt else
  (if EOS_STUB_MODE then ret tt else disconnect_all >> unregister_callbacks) >>
  modify (set_p2p (with_connections (λ _, ∅))) >>
  modify (set_p2p (with_initialized false)).

Definition broadcast_packet (data : option (list byte)) (size : N) (channel : N)
    (reliability : PacketReliability) : Op T unit :=
  let* peers := gets (λ w, connected_peers (m_connections (p2p w))) in
  for_each (λ peer_id, send_packet peer_id data size channel reliability >> ret tt)
    peers.

(** The loop of the stub build.  [q] is the content of
    [m_incoming_packets] when the loop test is evaluated. *)
Fixpoint receive_loop_stub (q : list IncomingPacket)
    (max_packets packets_received : N) : Op T N :=
  match q with
  | [] => ret packets_received
  | packet :: rest =>
      if packets_received <? max_packets then
        modify (set_p2p (with_incoming_packets rest)) >>
        let* handler := gets (λ w, on_packet_received (p2p w)) in
        when handler (emit (Call_on_packet_received packet)) >>
        receive_loop_stub rest max_packets (wrap32 (packets_received + 1))
      else ret packets_received
  end.

(** The loop of the SDK build.  [budget] is
    [max_packets - packets_received]: the loop test
    [packets_received < max_packets] is [budget = S _].  [t] is the
    state of the SDK behind the interface pointer [p2p]. *)
Fixpoint receive_loop_sdk (budget : nat) (t : T) (packets_received : N) : Op T N :=
  match budget with
  | O => ret packets_received
  | S budget' =>
      let* local := gets (λ w, get_product_user_id (auth w)) in
      let '(r, size, t1) := EOS_P2P_GetNextReceivedPacketSize t local in
      let packet_size := wrap32 size in
      sdk_step (Sdk_GetNextReceivedPacketSize local) t1 >>
      if negb (bool_decide (r = EOS_Success)) then ret packets_received else
      let recv_options :=
        {| recv_LocalUserId := local; recv_MaxDataSizeBytes := packet_size |} in
      let '(rp, t2) := EOS_P2P_ReceivePacket t1 recv_options in
      sdk_step (Sdk_ReceivePacket recv_options) t2 >>
      if bool_decide (rp_result rp = EOS_Success) then
        let bytes := wrap32 (rp_bytes_received rp) in
        let packet := received_packet packet_size rp in
        modify (set_p2p (with_connections
                  (alter (add_bytes_received bytes) (sender packet)))) >>
        let* handler := gets (λ w, on_packet_received (p2p w)) in
        when handler (emit (Call_on_packet_received packet)) >>
        receive_loop_sdk budget' t2 (wrap32 (packets_received + 1))
      else ret packets_received
  end.

Definition receive_packets (max_packets : N) : Op T N :=
  let* initialized := gets (λ w, m_initialized (p2p w)) in
  if negb initialized then ret 0 else
  if EOS_STUB_MODE then
    let* q := gets (λ w, m_incoming_packets (p2p w)) in
    receive_loop_stub q max_packets 0
  else
    let* platform := gets get_handle in
    match platform with
    | None => ret 0
    | Some t => receive_loop_sdk (N.to_nat max_packets) t 0
    end.

Definition get_peer_connection (peer_id : EOS_ProductUserId)
    : Op T (option PeerConnection) :=
  gets (λ w, m_connections (p2p w) !! peer_id).

Definition get_all_connections : Op T (list PeerConnection) :=
  gets (λ w, (map_to_list (m_connections (p2p w))).*2).

Definition is_connected_to (peer_id : EOS_ProductUserId) : Op T bool :=
  gets (λ w, match m_connections (p2p w) !! peer_id with
             | Some c => bool_decide (status c = Connected)
             | None => false
             end).

Definition get_peer_count : Op T N :=
  gets (λ w, foldl (λ count (kv : N * PeerConnection),
                      if bool_decide (status kv.2 = Connected)
                      then wrap32 (count + 1) else count)
               0 (map_to_list (m_connections (p2p w)))).

Definition handle_connection_request (peer_id : EOS_ProductUserId) : Op T unit :=
  accept_connections peer_id.

Definition handle_connection_established (peer_id : EOS_ProductUserId) : Op T unit :=
  modify (set_p2p (with_connections (λ m,
    match m !! peer_id with
    | Some c => <[peer_id := with_status Connected c]> m
    | None => <[peer_id := established_entry peer_id]> m
    end))) >>
  let* handler := gets (λ w, on_connection_established (p2p w)) in
  when handler (emit (Call_on_connection_established peer_id Connected)).

Definition handle_connection_closed (peer_id : EOS_ProductUserId) : Op T unit :=
  modify (set_p2p (with_connections (delete peer_id))) >>
  let* handler := gets (λ w, on_connection_closed (p2p w)) in
  when handler (emit (Call_on_connection_closed peer_id Disconnected)).

End P2PManager.

(** ** A scripted SDK for the examples

    The examples run the manager against this stand-in: its state is the
    list of datagrams waiting in the SDK's receive buffer, every send is
    accepted, and a receive hands out the oldest waiting datagram. *)

Definition scripted_sdk_receive (t : list IncomingPacket)
    (o : EOS_P2P_ReceivePacketOptions) : ReceivedPacket * list IncomingPacket :=
  match t with
  | [] =>
      ({| rp_result := EOS_Failure 1; rp_sender := nullptr; rp_channel := 0;
          rp_written := []; rp_bytes_received := 0 |}, [])
  | pkt :: t' =>
      ({| rp_result := EOS_Success; rp_sender := sender pkt;
          rp_channel := channel pkt; rp_written := data pkt;
          rp_bytes_received := N.of_nat (length (data pkt)) |}, t')
  end.

Global Instance scripted_sdk : EOS_SDK (list IncomingPacket) := {|
  EOS_P2P_SOCKETID_SOCKETNAME_SIZE := 33;
  EOS_P2P_AcceptConnection := λ t _, t;
  EOS_P2P_CloseConnection := λ t _, t;
  EOS_P2P_SendPacket := λ t _, (EOS_Success, t);
  EOS_P2P_GetNextReceivedPacketSize := λ t _,
    match t with
    | [] => (EOS_Failure 1, 0, t)
    | pkt :: _ => (EOS_Success, N.of_nat (length (data pkt)), t)
    end;
  EOS_P2P_ReceivePacket := scripted_sdk_receive;
  EOS_P2P_AddNotify := λ t _ _ _, t
|}.

(** A logged-in process with an initialised manager holding the table
    [conns], every handler registered, and the SDK in state [t]. *)
Definition running_world (conns : gmap EOS_ProductUserId PeerConnection)
    (q : list IncomingPacket) (t : list IncomingPacket) : World (list IncomingPacket) :=
  {| p2p := {| m_initialized := true; m_config := P2PConfig_default;
               m_connections := conns; m_incoming_packets := q;
               on_connection_established := true; on_connection_closed := true;
               on_packet_received := true |};
     auth := {| m_logged_in := true; m_product_user_id := 305419896 |};
     get_handle := Some t |}.

(** A process whose manager was never initialised. *)
Definition fresh_world : World (list IncomingPacket) :=
  {| p2p := P2PManager_default;
     auth := {| m_logged_in := false; m_product_user_id := nullptr |};
     get_handle := None |}.

(** The process after [AuthManager::login_device_id] of the stub build:
    the user is logged in under the id the stub hands out. *)
Definition logged_in_world : World (list IncomingPacket) :=
  {| p2p := P2PManager_default;
     auth := {| m_logged_in := true; m_product_user_id := 305419896 |};
     get_handle := None |}.

(** Assignment to the three public [std::function] fields. *)
Definition set_handlers (established closed packet : bool) (m : P2PManager)
    : P2PManager :=
  mkP2PManager (m_initialized m) (m_config m) (m_connections m)
    (m_incoming_packets m) established closed packet.

(** [test_p2p] of tests/test_client.cpp, which runs in the stub build:
    it returns what the test prints - whether the fake peer is
    connected, whether the packet was sent, and the peer count. *)
Definition test_p2p : Op (list IncomingPacket) (bool * bool * N) :=
  let config := {| socket_name := "TestGameSocket"; allow_relay := true;
                   max_packet_size := 1170; num_channels := 2 |} in
  let fake_peer := 3735928559 in
  let message := Some [x48; x65; x6c; x6c; x6f; x2c; x20; x70; x65; x65; x72;
                       x21; x00] in
  let* ok := initialize true config in
  if negb ok then ret (false, false, 0) else
  accept_connections true nullptr >>
  modify (set_p2p (set_handlers true false true)) >>
  connect_to_peer true fake_peer >>
  for_each (λ _ : nat, receive_packets true 100 >> ret tt) (seq 0 5) >>
  let* connected := is_connected_to fake_peer in
  let* sent :=
    (if connected then
       let* sent := send_packet true fake_peer message 13 0 ReliableOrdered in
       broadcast_packet true message 13 0 UnreliableUnordered >> ret sent
     else ret false) in
  let* count := get_peer_count in
  ret (connected, sent, count).

(** [AuthManager::logout], on the fields modelled here. *)
Definition logout {T} (w : World T) : World T :=
  mkWorld (p2p w) {| m_logged_in := false; m_product_user_id := nullptr |}
    (get_handle w).

(** ** Vocabulary of the properties *)

Definition connections {T} (w : World T) : gmap EOS_ProductUserId PeerConnection :=
  m_connections (p2p w).

(** The hand-off of a packet to the transport succeeds: always in the
    stub build; in the SDK build the platform handle is live and the SDK
    answers [EOS_Success]. *)
Definition transport_accepts (stub : bool) {T} `{!EOS_SDK T} (w : World T) : Prop :=
  stub = true ∨
  ∃ t, get_handle w = Some t ∧ ∀ o, (EOS_P2P_SendPacket t o).1 = EOS_Success.

(** The checks at the head of [send_packet] all pass. *)
Definition sendable {T} (w : World T) (peer : EOS_ProductUserId)
    (data : option (list byte)) (size : N) : Prop :=
  m_initialized (p2p w) = true ∧ peer ≠ nullptr ∧ is_Some data ∧ size ≠ 0 ∧
  size ≤ max_packet_size (m_config (p2p w)).

(** The table update of a successful [send_packet]. *)
Definition bump_sent {T} (peer : EOS_ProductUserId) (size : N) (w : World T)
    : World T :=
  set_p2p (with_connections (alter (add_bytes_sent size) peer)) w.

Definition is_established_call (e : Event) : bool :=
  match e with Call_on_connection_established _ _ => true | _ => false end.

(** The calls of the connection-established handler in a trace. *)
Definition established_calls (tr : list Event) : list Event :=
  filter (λ e, is_established_call e = true) tr.

(** The calls of the consumer's handlers in a trace, in order. *)
Definition handler_calls (tr : list Event) : list Event :=
  filter (λ e, is_handler_call e = true) tr.

(** The calls into the SDK in a trace, in order. *)
Definition transport_calls (tr : list Event) : list Event :=
  filter (λ e, is_transport_call e = true) tr.

(** The datagrams the SDK hands out when it is polled from state [t] as
    [receive_packets] polls it: at most [budget] times and until the
    first call that does not answer [EOS_Success]. *)
Fixpoint sdk_polled {T} `{!EOS_SDK T} (budget : nat) (t : T)
    (local : EOS_ProductUserId) : list IncomingPacket :=
  match budget with
  | O => []
  | S budget' =>
      let '(r, size, t1) := EOS_P2P_GetNextReceivedPacketSize t local in
      if negb (bool_decide (r = EOS_Success)) then [] else
      let '(rp, t2) :=
        EOS_P2P_ReceivePacket t1
          {| recv_LocalUserId := local; recv_MaxDataSizeBytes := wrap32 size |} in
      if bool_decide (rp_result rp = EOS_Success)
      then received_packet (wrap32 size) rp :: sdk_polled budget' t2 local
      else []
  end.

(** The table after the received-byte counters were credited with the
    packets [pkts], one after the other. *)
Definition credit_received (pkts : list IncomingPacket)
    (m : gmap EOS_ProductUserId PeerConnection)
    : gmap EOS_ProductUserId PeerConnection :=
  foldl (λ m pkt, alter (add_bytes_received (N.of_nat (length (data pkt))))
                    (sender pkt) m) m pkts.

(** The packets one call of [receive_packets] takes out of the inbound
    queue: the first [max_packets] entries of [m_incoming_packets] in
    the stub build, what the SDK hands out in the SDK build. *)
Definition drained (stub : bool) {T} `{!EOS_SDK T} (w : World T) (max_packets : N)
    : list IncomingPacket :=
  if stub then take (N.to_nat max_packets) (m_incoming_packets (p2p w))
  else match get_handle w with
       | Some t => sdk_polled (N.to_nat max_packets) t (get_product_user_id (auth w))
       | None => []
       end.

(** Every entry of [m] is still in [m'], with byte counters at least as
    large. *)
Definition counters_le (m m' : gmap EOS_ProductUserId PeerConnection) : Prop :=
  ∀ p c, m !! p = Some c →
    ∃ c', m' !! p = Some c' ∧ bytes_sent c ≤ bytes_sent c' ∧
          bytes_received c ≤ bytes_received c'.

(** No 64-bit counter of [m] wraps around when [k] more bytes are
    counted. *)
Definition headroom (k : N) (m : gmap EOS_ProductUserId PeerConnection) : Prop :=
  ∀ p c, m !! p = Some c →
    bytes_sent c + k < 2 ^ 64 ∧ bytes_received c + k < 2 ^ 64.

(** A second stand-in for the examples: an SDK without state that
    refuses every send and never has a datagram waiting. *)
Definition refusing_sdk : EOS_SDK unit := {|
  EOS_P2P_SOCKETID_SOCKETNAME_SIZE := 33;
  EOS_P2P_AcceptConnection := λ t _, t;
  EOS_P2P_CloseConnection := λ t _, t;
  EOS_P2P_SendPacket := λ t _, (EOS_Failure 1, t);
  EOS_P2P_GetNextReceivedPacketSize := λ t _, (EOS_Failure 1, 0, t);
  EOS_P2P_ReceivePacket := λ t _,
    ({| rp_result := EOS_Failure 1; rp_sender := nullptr; rp_channel := 0;
        rp_written := []; rp_bytes_received := 0 |}, t);
  EOS_P2P_AddNotify := λ t _ _ _, t
|}.

(** An initialised manager over the refusing SDK, peer 7 connected. *)
Definition refused_world : World unit :=
  {| p2p := {| m_initialized := true; m_config := P2PConfig_default;
               m_connections := {[7 := established_entry 7]};
               m_incoming_packets := [];
               on_connection_established := true; on_connection_closed := true;
               on_packet_received := true |};
     auth := {| m_logged_in := true; m_product_user_id := 305419896 |};
     get_handle := Some tt |}.

(** A string holds a NUL character. *)
Fixpoint has_nul (s : string) : bool :=
  match s with
  | EmptyString => false
  | String c s' => Ascii.eqb c Ascii.zero || has_nul s'
  end.

(** ** Sequences of calls

    What the rest of the program and the SDK can do to the manager: call
    a public member function, assign the handler fields, deliver one of
    the three notifications registered by [register_callbacks], or change
    the singletons the manager reads ([AuthManager], the platform
    handle). *)

Inductive Call (T : Type) : Type :=
  | Call_initialize (config : P2PConfig)
  | Call_shutdown
  | Call_accept_connections (peer_id : EOS_ProductUserId)
  | Call_connect_to_peer (peer_id : EOS_ProductUserId)
  | Call_disconnect_from_peer (peer_id : EOS_ProductUserId)
  | Call_disconnect_all
  | Call_send_packet (peer_id : EOS_ProductUserId) (data : option (list byte))
      (size channel : N) (reliability : PacketReliability)
  | Call_broadcast_packet (data : option (list byte)) (size channel : N)
      (reliability : PacketReliability)
  | Call_receive_packets (max_packets : N)
  | Assign_handlers (established closed packet : bool)
  | Notify_connection_request (peer_id : EOS_ProductUserId)
  | Notify_connection_established (peer_id : EOS_ProductUserId)
  | Notify_connection_closed (peer_id : EOS_ProductUserId)
  | Env_auth (a : AuthManager)
  | Env_platform (h : option T).
Arguments Call_initialize {T} _.
Arguments Call_shutdown {T}.
Arguments Call_accept_connections {T} _.
Arguments Call_connect_to_peer {T} _.
Arguments Call_disconnect_from_peer {T} _.
Arguments Call_disconnect_all {T}.
Arguments Call_send_packet {T} _ _ _ _ _.
Arguments Call_broadcast_packet {T} _ _ _ _.
Arguments Call_receive_packets {T} _.
Arguments Assign_handlers {T} _ _ _.
Arguments Notify_connection_request {T} _.
Arguments Notify_connection_established {T} _.
Arguments Notify_connection_closed {T} _.
Arguments Env_auth {T} _.
Arguments Env_platform {T} _.

Definition perform (stub : bool) {T} `{!EOS_SDK T} (c : Call T) : Op T unit :=
  match c with
  | Call_initialize config => initialize stub config >> ret tt
  | Call_shutdown => shutdown stub
  | Call_accept_connections p => accept_connections stub p
  | Call_connect_to_peer p => connect_to_peer stub p
  | Call_disconnect_from_peer p => disconnect_from_peer stub p
  | Call_disconnect_all => disconnect_all stub
  | Call_send_packet p data size chan rel =>
      send_packet stub p data size chan rel >> ret tt
  | Call_broadcast_packet data size chan rel =>
      broadcast_packet stub data size chan rel
  | Call_receive_packets n => receive_packets stub n >> ret tt
  | Assign_handlers e c p => modify (set_p2p (set_handlers e c p))
  | Notify_connection_request p => handle_connection_request stub p
  | Notify_connection_established p => handle_connection_established p
  | Notify_connection_closed p => handle_connection_closed p
  | Env_auth a => modify (λ w, mkWorld (p2p w) a (get_handle w))
  | Env_platform h => modify (set_handle h)
  end.

(** A sequence of calls, one after the other. *)
Definition run_calls (stub : bool) {T} `{!EOS_SDK T} (cs : list (Call T))
    : Op T unit :=
  for_each (perform stub) cs.

(** A call is [initialize] or [shutdown] only if [lifecycle] allows. *)
Definition lifecycle_only {T} (lifecycle : bool) (c : Call T) : Prop :=
  match c with
  | Call_initialize _ | Call_shutdown => lifecycle = true
  | _ => True
  end.

(** The notifications of a call carry a peer id that satisfies [ok]. *)
Definition notifies_only {T} (ok : EOS_ProductUserId → Prop) (c : Call T) : Prop :=
  match c with
  | Notify_connection_established p => ok p
  | _ => True
  end.

(** A world whose manager is as constructed. *)
Definition start_world {T} (a : AuthManager) (h : option T) : World T :=
  {| p2p := P2PManager_default; auth := a; get_handle := h |}.

(** The elementary changes of the manager.  Those made by the public
    member functions are gated by [m_initialized]; the two made by the
    notification handlers are not.  [lifecycle] says whether the changes
    of [initialize] and [shutdown] are among them, [ok] which peers a
    connection-established notification may name. *)
Inductive manager_update (stub lifecycle : bool) (ok : EOS_ProductUserId → Prop)
    : P2PManager → P2PManager → Prop :=
  | mu_configure m config :
      lifecycle = true → m_initialized m = false →
      manager_update stub lifecycle ok m (with_config config m)
  | mu_initialize m :
      lifecycle = true → m_initialized m = false →
      manager_update stub lifecycle ok m (with_initialized true m)
  | mu_shutdown m :
      lifecycle = true → m_initialized m = true →
      manager_update stub lifecycle ok m
        (with_initialized false (with_connections (λ _, ∅) m))
  | mu_connect m p :
      m_initialized m = true → p ≠ nullptr →
      manager_update stub lifecycle ok m
        (with_connections
           (insert p (if stub then stub_entry p else connecting_entry p)) m)
  | mu_disconnect m p :
      m_initialized m = true →
      manager_update stub lifecycle ok m (with_connections (delete p) m)
  | mu_sent m p n :
      m_initialized m = true →
      manager_update stub lifecycle ok m (with_connections (alter (add_bytes_sent n) p) m)
  | mu_received m p n :
      m_initialized m = true →
      manager_update stub lifecycle ok m
        (with_connections (alter (add_bytes_received n) p) m)
  | mu_pop m packet rest :
      m_initialized m = true → m_incoming_packets m = packet :: rest →
      manager_update stub lifecycle ok m (with_incoming_packets rest m)
  | mu_handlers m e c p :
      manager_update stub lifecycle ok m (set_handlers e c p m)
  | mu_established_known m p c :
      ok p → m_connections m !! p = Some c →
      manager_update stub lifecycle ok m
        (with_connections (insert p (with_status Connected c)) m)
  | mu_established_new m p :
      ok p → m_connections m !! p = None →
      manager_update stub lifecycle ok m
        (with_connections (insert p (established_entry p)) m)
  | mu_closed m p :
      manager_update stub lifecycle ok m (with_connections (delete p) m).

(** Every entry is stored under the id it records. *)
Definition well_keyed (m : gmap EOS_ProductUserId PeerConnection) : Prop :=
  ∀ p c, m !! p = Some c → peer_id c = p.

(** The states the code ever gives an entry. *)
Definition live_status (stub : bool) (st : ConnectionStatus) : Prop :=
  st = Connected ∨ (stub = false ∧ st = Connecting).

(** Every entry is in one of those states. *)
Definition all_live (stub : bool) (m : gmap EOS_ProductUserId PeerConnection)
    : Prop :=
  ∀ p c, m !! p = Some c → live_status stub (status c).


(** The manager with another connection table. *)
Definition with_table {T} (m : gmap EOS_ProductUserId PeerConnection) (w : World T)
    : World T :=
  set_p2p (with_connections (λ _, m)) w.

(** The three handler fields of the manager: which [std::function]s are
    non-empty. *)
Definition handlers_of (m : P2PManager) : bool * bool * bool :=
  (on_connection_established m, on_connection_closed m, on_packet_received m).

(** An event is a call into the SDK or a call of a handler that is
    registered in [m]. *)
Definition handler_registered (m : P2PManager) (e : Event) : Prop :=
  match e with
  | Call_on_connection_established _ _ => on_connection_established m = true
  | Call_on_connection_closed _ _ => on_connection_closed m = true
  | Call_on_packet_received _ => on_packet_received m = true
  | _ => True
  end.

(** An event is a call of one of the two connection handlers. *)
Definition is_connection_handler_call (e : Event) : bool :=
  match e with
  | Call_on_connection_established _ _ | Call_on_connection_closed _ _ => true
  | _ => false
  end.

(** Run from [w], [m] leaves the handler fields as they are and every
    event it emits satisfies [P] at the manager of [w]. *)
Definition traces_only {T A} (P : P2PManager → Event → Prop) (m : Op T A)
    (w : World T) : Prop :=
  handlers_of (p2p (world_of (m w))) = handlers_of (p2p w) ∧
  Forall (P (p2p w)) (trace_of (m w)).

(** The call is not an assignment to the handler fields. *)
Definition assigns_no_handler {T} (c : Call T) : Prop :=
  match c with Assign_handlers _ _ _ => False | _ => True end.

(** The call is one of the SDK's connection-established and
    connection-closed notifications. *)
Definition connection_notification {T} (c : Call T) : Prop :=
  match c with
  | Notify_connection_established _ | Notify_connection_closed _ => True
  | _ => False
  end.

(** * Properties *)

(** Unfolding of the monad's combinators. *)
Ltac run :=
  unfold bind, ret, gets, modify, emit, when, sdk_step; simpl.

(** ** The repository's own test, run on the model *)

Example test_p2p_result :
  result_of (test_p2p logged_in_world) = (true, true, 1).
Proof. vm_compute. reflexivity. Qed.

Example test_p2p_trace :
  trace_of (test_p2p logged_in_world)
    = [Call_on_connection_established 3735928559 Connected].
Proof. vm_compute. reflexivity. Qed.

Example test_p2p_counter :
  bytes_sent <$> connections (world_of (test_p2p logged_in_world)) !! 3735928559
    = Some 26.
Proof. vm_compute. reflexivity. Qed.

Example shutdown_closes_connections :
  let w := running_world {[7 := established_entry 7; 9 := connecting_entry 9]}
             [] [] in
  let r := shutdown false w in
  connections (world_of r) = ∅ ∧ m_initialized (p2p (world_of r)) = false ∧
  length (transport_calls (trace_of r)) = 2%nat ∧ handler_calls (trace_of r) = [].
Proof. vm_compute. done. Qed.

Example strncpy_truncates :
  strncpy 4 "GameSocket" = "Game"%string ∧ strncpy 32 "GameSocket" = "GameSocket"%string.
Proof. split; reflexivity. Qed.

Example get_peer_count_counts_connected :
  result_of (get_peer_count
               (running_world {[7 := established_entry 7; 9 := connecting_entry 9;
                                11 := established_entry 11]} [] [])) = 2.
Proof. vm_compute. reflexivity. Qed.

Section Lifecycle.
Context (EOS_STUB_MODE : bool) {T : Type} `{!EOS_SDK T}.

Lemma shutdown_uninitializes (w : World T) :
  m_initialized (p2p (world_of (shutdown EOS_STUB_MODE w))) = false.
Proof.
  unfold shutdown, world_of. run.
  destruct (m_initialized (p2p w)) eqn:Hi; simpl; [|exact Hi].
  destruct EOS_STUB_MODE; simpl; [reflexivity|].
  destruct (disconnect_all false w) as [[[] w1] t1]. reflexivity.
Qed.

(** C10. While the manager is not initialised, [send_packet] returns
    false, [receive_packets] returns 0, and [connect_to_peer],
    [disconnect_from_peer] and [accept_connections] return at once: the
    state is unchanged and no handler or SDK call is made.  That is the
    situation of a manager as constructed, and of any manager after
    [shutdown]. *)
Theorem uninitialized_operations_are_noops
    (w w' : World T) peer data size chan rel max_packets :
  m_initialized (p2p w) = false →
  (send_packet EOS_STUB_MODE peer data size chan rel w = (false, w, []) ∧
   receive_packets EOS_STUB_MODE max_packets w = (0, w, []) ∧
   connect_to_peer EOS_STUB_MODE peer w = (tt, w, []) ∧
   disconnect_from_peer EOS_STUB_MODE peer w = (tt, w, []) ∧
   accept_connections EOS_STUB_MODE peer w = (tt, w, [])) ∧
  m_initialized P2PManager_default = false ∧
  m_initialized (p2p (world_of (shutdown EOS_STUB_MODE w'))) = false.
Proof.
  intros Hi. split; [|split; [reflexivity|apply shutdown_uninitializes]].
  unfold send_packet, receive_packets, connect_to_peer, disconnect_from_peer,
    accept_connections.
  run. rewrite Hi. simpl. done.
Qed.

(** C8, as the code has it. When [is_logged_in()] is false and the
    manager is not yet initialised, [initialize] returns false and
    changes nothing, so the manager stays uninitialised.  On a manager
    that is already initialised the login state is not consulted:
    [initialize] returns true and changes nothing. *)
Theorem initialize_requires_login (w : World T) (config : P2PConfig) :
  is_logged_in (auth w) = false →
  initialize EOS_STUB_MODE config w = (m_initialized (p2p w), w, []) ∧
  (m_initialized (p2p w) = false →
   initialize EOS_STUB_MODE config w = (false, w, []) ∧
   m_initialized (p2p (world_of (initialize EOS_STUB_MODE config w))) = false).
Proof.
  intros Hl. unfold initialize, world_of. run.
  destruct (m_initialized (p2p w)) eqn:Hi; simpl; [done|].
  rewrite Hl. simpl. done.
Qed.

End Lifecycle.

Lemma uninitialized_operations_are_noops_witness :
  m_initialized (p2p fresh_world) = false ∧
  send_packet true 7 (Some [x01]) 1 0 ReliableOrdered fresh_world
    = (false, fresh_world, []) ∧
  receive_packets false 100 fresh_world = (0, fresh_world, []).
Proof.
  split; [reflexivity|]. split.
  - apply (uninitialized_operations_are_noops true fresh_world fresh_world
             7 (Some [x01]) 1 0 ReliableOrdered 100). reflexivity.
  - apply (uninitialized_operations_are_noops false fresh_world fresh_world
             7 (Some [x01]) 1 0 ReliableOrdered 100). reflexivity.
Defined.

(** C8, counterexample to the claim as stated: on a manager that was
    initialised before the user logged out, [initialize] returns true
    although [is_logged_in()] is false. *)
Lemma initialize_logged_out_counterexample :
  let w := logout (running_world ∅ [] []) in
  is_logged_in (auth w) = false ∧
  result_of (initialize true P2PConfig_default w) = true ∧
  result_of (initialize false P2PConfig_default w) = true ∧
  m_initialized (p2p (world_of (initialize true P2PConfig_default w))) = true.
Proof. vm_compute. done. Qed.

Lemma initialize_requires_login_witness :
  is_logged_in (auth fresh_world) = false ∧
  m_initialized (p2p fresh_world) = false ∧
  initialize true P2PConfig_default fresh_world = (false, fresh_world, []).
Proof.
  split; [reflexivity|]. split; [reflexivity|].
  apply (initialize_requires_login true fresh_world P2PConfig_default);
    reflexivity.
Defined.

Section SendPacket.
Context {T : Type} `{!EOS_SDK T}.

Lemma send_packet_rejects (stub : bool) (w : World T) peer data size chan rel :
  m_initialized (p2p w) = false ∨ peer = nullptr ∨ data = None ∨ size = 0 ∨
  max_packet_size (m_config (p2p w)) < size →
  send_packet stub peer data size chan rel w = (false, w, []).
Proof.
  intros H. unfold send_packet. run.
  destruct (m_initialized (p2p w)) eqn:Hi; simpl; [|done].
  destruct (N.eqb_spec peer nullptr) as [|Hp]; simpl; [done|].
  destruct data as [d|]; simpl; [|done].
  destruct (N.eqb_spec size 0) as [|Hs]; simpl; [done|].
  destruct (N.ltb_spec (max_packet_size (m_config (p2p w))) size) as [|Hm];
    simpl; [done|].
  destruct H as [?|[?|[?|[?|?]]]]; try done. lia.
Qed.

Lemma send_packet_stub (w : World T) peer data size chan rel :
  sendable w peer data size →
  send_packet true peer data size chan rel w
    = (true, bump_sent peer size w, []).
Proof.
  intros (Hi & Hp & Hd & Hs & Hm). unfold send_packet. run.
  rewrite Hi. simpl.
  destruct (N.eqb_spec peer nullptr); [done|]. simpl.
  destruct Hd as [d ->]. simpl.
  destruct (N.eqb_spec size 0); [done|]. simpl.
  destruct (N.ltb_spec (max_packet_size (m_config (p2p w))) size); [lia|].
  reflexivity.
Qed.

Lemma send_packet_sdk (w : World T) peer data size chan rel t :
  sendable w peer data size → get_handle w = Some t →
  let o := send_options w peer data size chan rel in
  let r := EOS_P2P_SendPacket t o in
  send_packet false peer data size chan rel w
    = (bool_decide (r.1 = EOS_Success),
       (if bool_decide (r.1 = EOS_Success) then bump_sent peer size else id)
         (set_handle (Some r.2) w),
       [Sdk_SendPacket o]).
Proof.
  intros (Hi & Hp & Hd & Hs & Hm) Ht. unfold send_packet. run.
  rewrite Hi. simpl.
  destruct (N.eqb_spec peer nullptr); [done|]. simpl.
  destruct Hd as [d ->]. simpl.
  destruct (N.eqb_spec size 0); [done|]. simpl.
  destruct (N.ltb_spec (max_packet_size (m_config (p2p w))) size); [lia|].
  simpl. rewrite Ht.
  destruct (EOS_P2P_SendPacket t (send_options w peer (Some d) size chan rel))
    as [r t'] eqn:Hr. run.
  destruct (bool_decide (r = EOS_Success)); reflexivity.
Qed.

Lemma send_packet_sdk_no_platform (w : World T) peer data size chan rel :
  get_handle w = None →
  send_packet false peer data size chan rel w = (false, w, []).
Proof.
  intros Ht. unfold send_packet. run.
  destruct (_ || _ || _ || _); [done|].
  destruct (_ <? _); [done|]. simpl. by rewrite Ht.
Qed.

(** C2. [send_packet] returns false, changes nothing and calls nothing
    when the payload is empty, when it is longer than
    [max_packet_size], or when the peer is null.  When the other
    checks pass and the transport takes the packet, a payload of
    exactly [max_packet_size] bytes is sent (the return value is true);
    one of [max_packet_size + 1] bytes is rejected before the SDK is
    called. *)
Theorem send_packet_validates (stub : bool) (w : World T) peer data size chan rel :
  let limit := max_packet_size (m_config (p2p w)) in
  (size = 0 ∨ limit < size ∨ peer = nullptr →
     send_packet stub peer data size chan rel w = (false, w, [])) ∧
  (m_initialized (p2p w) = true → peer ≠ nullptr → is_Some data → size ≠ 0 →
   size = limit → transport_accepts stub w →
     result_of (send_packet stub peer data size chan rel w) = true) ∧
  (size = limit + 1 →
     send_packet stub peer data size chan rel w = (false, w, [])).
Proof.
  intros limit. split; [|split].
  - intros H. apply send_packet_rejects. tauto.
  - intros Hi Hp Hd Hs Hm Hacc.
    assert (sendable w peer data size) as Hok.
    { repeat split; try done. subst limit. lia. }
    destruct Hacc as [->|(t & Ht & Hsucc)].
    + by rewrite send_packet_stub.
    + destruct stub; [by rewrite send_packet_stub|].
      rewrite (send_packet_sdk _ _ _ _ _ _ t) by done.
      unfold result_of. simpl. by rewrite Hsucc, bool_decide_eq_true_2.
  - intros H. apply send_packet_rejects. subst limit. right. right. right. right.
    lia.
Qed.

End SendPacket.

Lemma send_packet_validates_witness :
  let w := running_world {[7 := stub_entry 7]} [] [] in
  result_of (send_packet false 7 (Some (replicate 1170 x00)) 1170 0
               UnreliableUnordered w) = true ∧
  send_packet false 7 (Some (replicate 1171 x00)) 1171 0 UnreliableUnordered w
    = (false, w, []) ∧
  send_packet true 7 (Some []) 0 0 UnreliableUnordered w = (false, w, []).
Proof.
  intros w. split; [|split].
  - apply (send_packet_validates false w 7 (Some (replicate 1170 x00)) 1170 0
             UnreliableUnordered); [reflexivity|done|eauto|done|reflexivity|].
    unfold transport_accepts. right. exists []. split; [reflexivity|].
    intros o. reflexivity.
  - apply (send_packet_validates false w 7 (Some (replicate 1171 x00)) 1171 0
             UnreliableUnordered). reflexivity.
  - apply (proj1 (send_packet_validates true w 7 (Some []) 0 0
                    UnreliableUnordered)).
    left. reflexivity.
Defined.

Section Registry.
Context {T : Type} `{!EOS_SDK T}.

Lemma insert_after_alter (m : gmap EOS_ProductUserId PeerConnection) k v f :
  <[k := v]> (alter f k m) = <[k := v]> m.
Proof.
  apply map_eq. intros i. destruct (decide (k = i)) as [->|Hne].
  - by rewrite !lookup_insert_eq.
  - by rewrite !lookup_insert_ne, lookup_alter_ne.
Qed.

Lemma connect_to_peer_stub (w : World T) peer :
  m_initialized (p2p w) = true → peer ≠ nullptr →
  connect_to_peer true peer w
    = (tt, set_p2p (with_connections (insert peer (stub_entry peer))) w,
       if on_connection_established (p2p w)
       then [Call_on_connection_established peer Connected] else []).
Proof.
  intros Hi Hp. unfold connect_to_peer. run. rewrite Hi. simpl.
  destruct (N.eqb_spec peer nullptr); [done|]. simpl.
  destruct (on_connection_established (p2p w)); reflexivity.
Qed.

Lemma connect_to_peer_sdk (w : World T) peer :
  m_initialized (p2p w) = true → peer ≠ nullptr →
  connect_to_peer false peer w
    = let r := send_packet false peer (Some hello) 1 0 ReliableOrdered w in
      (tt, set_p2p (with_connections (insert peer (connecting_entry peer)))
             (world_of r),
       trace_of r).
Proof.
  intros Hi Hp. unfold connect_to_peer. run. rewrite Hi. simpl.
  destruct (N.eqb_spec peer nullptr); [done|]. simpl.
  change (N.of_nat 1) with 1.
  destruct (send_packet false peer (Some hello) 1 0 ReliableOrdered w)
    as [[b w1] t1]. unfold world_of, trace_of. simpl. by rewrite app_nil_r.
Qed.

(** What a call of [send_packet] can change in the world. *)
Lemma send_packet_frame (stub : bool) (w : World T) peer data size chan rel :
  let w' := world_of (send_packet stub peer data size chan rel w) in
  auth w' = auth w ∧
  (is_Some (get_handle w) → is_Some (get_handle w')) ∧
  (connections w' = connections w ∨
   connections w' = alter (add_bytes_sent size) peer (connections w)) ∧
  with_connections (λ _, ∅) (p2p w') = with_connections (λ _, ∅) (p2p w).
Proof.
  intros w'. subst w'.
  destruct (decide (sendable w peer data size)) as [Hok|Hno].
  - destruct stub.
    + rewrite send_packet_stub by done. unfold world_of. simpl. eauto 10.
    + destruct (get_handle w) as [t|] eqn:Ht.
      * rewrite (send_packet_sdk _ _ _ _ _ _ t) by done. unfold world_of.
        simpl. destruct (bool_decide _); simpl; eauto 10.
      * rewrite send_packet_sdk_no_platform by done. unfold world_of.
        simpl. split; [done|]. split; [by intros [? ?]|]. eauto.
  - rewrite send_packet_rejects; [unfold world_of; simpl; eauto|].
    unfold sendable in Hno.
    destruct (m_initialized (p2p w)); [|eauto].
    destruct (decide (peer = nullptr)); [eauto|].
    destruct data; [|eauto].
    destruct (decide (size = 0)); [eauto|].
    destruct (decide (size ≤ max_packet_size (m_config (p2p w)))).
    + exfalso. apply Hno. eauto 10.
    + right. right. right. right. lia.
Qed.

End Registry.

Section Connect.
Context {T : Type} `{!EOS_SDK T}.

(** Two managers that differ at most in their connection table. *)
Lemma same_settings (m m' : P2PManager) :
  with_connections (λ _, ∅) m' = with_connections (λ _, ∅) m →
  m_initialized m' = m_initialized m ∧ m_config m' = m_config m ∧
  m_incoming_packets m' = m_incoming_packets m ∧
  on_connection_established m' = on_connection_established m ∧
  on_connection_closed m' = on_connection_closed m ∧
  on_packet_received m' = on_packet_received m.
Proof.
  destruct m, m'. unfold with_connections. simpl. intros [= -> -> -> -> -> ->].
  done.
Qed.

Lemma connect_to_peer_frame (stub : bool) (w : World T) peer :
  m_initialized (p2p w) = true → peer ≠ nullptr →
  let w' := world_of (connect_to_peer stub peer w) in
  connections w'
    = <[peer := if stub then stub_entry peer else connecting_entry peer]>
        (connections w) ∧
  auth w' = auth w ∧
  (is_Some (get_handle w) → is_Some (get_handle w')) ∧
  with_connections (λ _, ∅) (p2p w') = with_connections (λ _, ∅) (p2p w).
Proof.
  intros Hi Hp. destruct stub; simpl.
  - rewrite connect_to_peer_stub by done. unfold world_of. simpl. done.
  - rewrite connect_to_peer_sdk by done. simpl.
    pose proof (send_packet_frame false w peer (Some hello) 1 0 ReliableOrdered)
      as (Ha & Hh & Hc & Hs). simpl in *.
    set (w1 := world_of (send_packet false peer (Some hello) 1 0 ReliableOrdered w))
      in *.
    unfold world_of at 1. simpl. unfold connections in *. simpl.
    split; [|split; [done|split; [done|]]].
    + destruct Hc as [-> | ->]; [done|apply insert_after_alter].
    + destruct (p2p w1), (p2p w). unfold with_connections in *. simpl in *.
      by injection Hs as -> -> -> -> -> ->.
Qed.

(** C3, as the code has it. [connect_to_peer] does not look at the
    entry the peer already has.  On an initialised manager and for a
    non-null peer it replaces the peer's entry by a fresh one -
    [Connecting] in the SDK build, [Connected] in the stub build - so a
    second call leaves the table as the first one left it.  But every
    call of the SDK build hands the one-byte hello to the SDK, on
    channel 0 and [ReliableOrdered] (the platform handle being live and
    [max_packet_size] at least 1), the second call as the first; and
    every call of the stub build calls the connection-established
    handler when one is registered. *)
Theorem connect_to_peer_overwrites (stub : bool) (w : World T) peer :
  m_initialized (p2p w) = true → peer ≠ nullptr →
  let r1 := connect_to_peer stub peer w in
  let r2 := connect_to_peer stub peer (world_of r1) in
  connections (world_of r1)
    = <[peer := if stub then stub_entry peer else connecting_entry peer]>
        (connections w) ∧
  connections (world_of r2) = connections (world_of r1) ∧
  (stub = false → is_Some (get_handle w) →
   1 ≤ max_packet_size (m_config (p2p w)) →
     let o := send_options w peer (Some hello) 1 0 ReliableOrdered in
     trace_of r1 = [Sdk_SendPacket o] ∧ trace_of r2 = [Sdk_SendPacket o]) ∧
  (stub = true →
     let call := if on_connection_established (p2p w)
                 then [Call_on_connection_established peer Connected] else [] in
     trace_of r1 = call ∧ trace_of r2 = call).
Proof.
  intros Hi Hp r1 r2.
  pose proof (connect_to_peer_frame stub w peer Hi Hp) as (Hc1 & Ha1 & Hh1 & Hs1).
  simpl in Hc1, Ha1, Hh1, Hs1. fold r1 in Hc1, Ha1, Hh1, Hs1.
  apply same_settings in Hs1 as (Hi1 & Hcfg1 & _ & He1 & _ & _).
  assert (m_initialized (p2p (world_of r1)) = true) as Hi' by congruence.
  pose proof (connect_to_peer_frame stub (world_of r1) peer Hi' Hp) as (Hc2 & _).
  simpl in Hc2. fold r2 in Hc2.
  split; [done|]. split; [by rewrite Hc2, Hc1, insert_insert_eq|]. split.
  - intros -> [t Ht] Hmax o.
    assert (∀ w0 : World T, m_initialized (p2p w0) = true → is_Some (get_handle w0) →
            auth w0 = auth w → m_config (p2p w0) = m_config (p2p w) →
            trace_of (connect_to_peer false peer w0) = [Sdk_SendPacket o]) as Hgen.
    { intros w0 Hi0 [t0 Ht0] Ha0 Hcfg0.
      rewrite connect_to_peer_sdk by done. unfold trace_of at 1. simpl.
      assert (sendable w0 peer (Some hello) 1) as Hok.
      { split; [done|]. split; [done|]. split; [eauto|]. split; [done|].
        by rewrite Hcfg0. }
      rewrite (send_packet_sdk _ _ _ _ _ _ t0) by done.
      unfold trace_of. simpl. subst o. unfold send_options.
      by rewrite Ha0, Hcfg0. }
    split; [apply Hgen; eauto|]. subst r2. apply Hgen; eauto.
  - intros -> call. subst r1 r2. rewrite !connect_to_peer_stub by done.
    rewrite connect_to_peer_stub in He1 by done.
    unfold trace_of, world_of in *. simpl in *. done.
Qed.

End Connect.

(** C3, counterexample to the claim as stated (SDK build): a second
    [connect_to_peer] while the peer is [Connecting] hands a second
    hello to the SDK, and [connect_to_peer] on a [Connected] peer is not
    a no-op: the entry goes back to [Connecting]. *)
Lemma connect_to_peer_twice_counterexample :
  let w0 := running_world ∅ [] [] in
  let w1 := world_of (connect_to_peer false 7 w0) in
  status <$> connections w1 !! 7 = Some Connecting ∧
  length (transport_calls (trace_of (connect_to_peer false 7 w1))) = 1%nat ∧
  let w2 := running_world {[7 := established_entry 7]} [] [] in
  status <$> connections w2 !! 7 = Some Connected ∧
  status <$> connections (world_of (connect_to_peer false 7 w2)) !! 7
    = Some Connecting.
Proof. vm_compute. done. Qed.

Lemma connect_to_peer_overwrites_witness :
  let w := running_world {[7 := established_entry 7]} [] [] in
  connections (world_of (connect_to_peer false 7 w))
    = <[7 := connecting_entry 7]> (connections w).
Proof.
  intros w.
  apply (connect_to_peer_overwrites false w 7); [reflexivity|done].
Defined.

Section Receive.
Context {T : Type} `{!EOS_SDK T}.

Lemma set_incoming_packets_same (w : World T) :
  set_p2p (with_incoming_packets (m_incoming_packets (p2p w))) w = w.
Proof. by destruct w as [[] ? ?]. Qed.

Lemma with_connections_same (m : P2PManager) :
  with_connections (λ c, c) m = m.
Proof. by destruct m. Qed.

Lemma length_vector_resize n v : length (vector_resize n v) = n.
Proof.
  unfold vector_resize. rewrite length_app, length_take, length_replicate. lia.
Qed.

Lemma received_packet_length size rp :
  N.of_nat (length (data (received_packet size rp)))
    = wrap32 (rp_bytes_received rp).
Proof. simpl. rewrite length_vector_resize. apply N2Nat.id. Qed.

Lemma wrap32_small n : n < 2 ^ 32 → wrap32 n = n.
Proof. intros. unfold wrap32. by apply N.mod_small. Qed.

Lemma handler_calls_app t1 t2 :
  handler_calls (t1 ++ t2) = handler_calls t1 ++ handler_calls t2.
Proof. unfold handler_calls. apply filter_app. Qed.

Lemma handler_calls_cons e tr :
  handler_calls (e :: tr)
    = if is_handler_call e then e :: handler_calls tr else handler_calls tr.
Proof.
  unfold handler_calls. rewrite filter_cons.
  destruct (is_handler_call e); [by rewrite decide_True|by rewrite decide_False].
Qed.

Lemma receive_loop_stub_spec (q : list IncomingPacket) :
  ∀ (max_packets packets_received : N) (w : World T),
    m_incoming_packets (p2p w) = q →
    packets_received ≤ max_packets → max_packets < 2 ^ 32 →
    let n := N.to_nat (max_packets - packets_received) in
    receive_loop_stub q max_packets packets_received w
      = (packets_received + N.of_nat (length (take n q)),
         set_p2p (with_incoming_packets (drop n q)) w,
         if on_packet_received (p2p w)
         then Call_on_packet_received <$> take n q else []).
Proof.
  induction q as [|packet rest IH]; intros max_packets pr w Hq Hle Hmax n.
  - simpl. run. rewrite take_nil, drop_nil, N.add_0_r. simpl.
    rewrite <- Hq, set_incoming_packets_same. by destruct (on_packet_received _).
  - simpl. destruct (N.ltb_spec pr max_packets) as [Hlt|Hge].
    + assert (wrap32 (pr + 1) = pr + 1) as -> by (apply wrap32_small; lia).
      specialize (IH max_packets (pr + 1)
                    (set_p2p (with_incoming_packets rest) w) eq_refl).
      simpl in IH.
      assert (n = S (N.to_nat (max_packets - (pr + 1)))) as -> by lia.
      run. destruct (on_packet_received (p2p w)); simpl;
        rewrite IH by lia; simpl; f_equal; f_equal; lia.
    + run. assert (n = 0%nat) as -> by lia. simpl.
      rewrite N.add_0_r, <- Hq, set_incoming_packets_same.
      by destruct (on_packet_received _).
Qed.

Lemma receive_loop_sdk_spec (budget : nat) :
  ∀ (t : T) (packets_received : N) (w : World T),
    packets_received + N.of_nat budget < 2 ^ 32 →
    let pkts := sdk_polled budget t (get_product_user_id (auth w)) in
    let r := receive_loop_sdk budget t packets_received w in
    result_of r = packets_received + N.of_nat (length pkts) ∧
    p2p (world_of r) = with_connections (credit_received pkts) (p2p w) ∧
    auth (world_of r) = auth w ∧
    handler_calls (trace_of r)
      = (if on_packet_received (p2p w)
         then Call_on_packet_received <$> pkts else []) ∧
    (length pkts ≤ budget)%nat.
Proof.
  induction budget as [|budget IH]; intros t pr w Hpr pkts r.
  - subst pkts r. simpl. unfold result_of, world_of, trace_of. run.
    rewrite N.add_0_r. unfold credit_received. simpl.
    rewrite with_connections_same.
    destruct (on_packet_received _); done.
  - subst pkts r. simpl. run.
    destruct (EOS_P2P_GetNextReceivedPacketSize t (get_product_user_id (auth w)))
      as [[res size] t1] eqn:Hsize. run.
    destruct (bool_decide (res = EOS_Success)); simpl.
    2:{ unfold result_of, world_of, trace_of. simpl.
        rewrite N.add_0_r. unfold credit_received. simpl.
        rewrite with_connections_same, handler_calls_cons. simpl.
        destruct (on_packet_received _); repeat split; try done; lia. }
    destruct (EOS_P2P_ReceivePacket t1 _) as [rp t2] eqn:Hrecv. run.
    destruct (bool_decide (rp_result rp = EOS_Success)); simpl.
    2:{ unfold result_of, world_of, trace_of. simpl.
        rewrite N.add_0_r. unfold credit_received. simpl.
        rewrite with_connections_same, !handler_calls_cons. simpl.
        destruct (on_packet_received _); repeat split; try done; lia. }
    assert (wrap32 (pr + 1) = pr + 1) as -> by (apply wrap32_small; lia).
    set (pkt := received_packet (wrap32 size) rp).
    set (w1 := set_p2p (with_connections
                 (alter (add_bytes_received (wrap32 (rp_bytes_received rp)))
                    (rp_sender rp)))
                 (set_handle (Some t2) (set_handle (Some t1) w))).
    specialize (IH t2 (pr + 1) w1).
    destruct IH as (Hr & Hp & Ha & Hc & Hl); [lia|].
    change (get_product_user_id (auth w)) with (get_product_user_id (auth w1)).
    destruct (receive_loop_sdk budget t2 (pr + 1) w1) as [[n w2] tr] eqn:Hloop.
    unfold result_of, world_of, trace_of in *. simpl in Hr, Hp, Ha, Hc, Hl.
    assert (p2p w2 = with_connections
              (credit_received
                 (pkt :: sdk_polled budget t2 (get_product_user_id (auth w))))
              (p2p w)) as Hp'.
    { rewrite Hp. unfold credit_received. cbn [foldl]. subst pkt.
      rewrite (received_packet_length (wrap32 size) rp).
      by destruct (p2p w). }
    destruct (on_packet_received (p2p w)) eqn:Hcb; simpl;
      fold w1; rewrite Hloop; simpl; rewrite !handler_calls_cons; simpl;
      rewrite Hc; repeat split; try done; lia.
Qed.

End Receive.

Section Drain.
Context {T : Type} `{!EOS_SDK T}.

Lemma handler_calls_packets (l : list IncomingPacket) :
  handler_calls (Call_on_packet_received <$> l) = Call_on_packet_received <$> l.
Proof.
  induction l as [|x l IHl]; [done|].
  rewrite fmap_cons, handler_calls_cons. simpl. by rewrite IHl.
Qed.

Lemma transport_calls_packets (l : list IncomingPacket) :
  transport_calls (Call_on_packet_received <$> l) = [].
Proof.
  unfold transport_calls. induction l as [|x l IHl]; [done|].
  rewrite fmap_cons, filter_cons. simpl. exact IHl.
Qed.

Lemma receive_packets_spec (stub : bool) (w : World T) (max_packets : N) :
  m_initialized (p2p w) = true → max_packets < 2 ^ 32 →
  let pkts := drained stub w max_packets in
  let r := receive_packets stub max_packets w in
  result_of r = N.of_nat (length pkts) ∧
  p2p (world_of r)
    = (if stub
       then with_incoming_packets
              (drop (N.to_nat max_packets) (m_incoming_packets (p2p w))) (p2p w)
       else with_connections (credit_received pkts) (p2p w)) ∧
  auth (world_of r) = auth w ∧
  handler_calls (trace_of r)
    = (if on_packet_received (p2p w)
       then Call_on_packet_received <$> pkts else []) ∧
  (length pkts ≤ N.to_nat max_packets)%nat ∧
  (stub = true → transport_calls (trace_of r) = []).
Proof.
  intros Hi Hmax pkts r. subst pkts r. unfold receive_packets, drained. run.
  rewrite Hi. simpl. destruct stub.
  - pose proof (receive_loop_stub_spec (m_incoming_packets (p2p w))
                  max_packets 0 w eq_refl) as Hloop.
    simpl in Hloop. rewrite N.sub_0_r in Hloop.
    rewrite Hloop by lia. unfold result_of, world_of, trace_of. simpl.
    split; [done|]. split; [done|]. split; [done|]. split; [|split].
    + destruct (on_packet_received (p2p w)); [|done].
      apply handler_calls_packets.
    + rewrite length_take. lia.
    + intros _. destruct (on_packet_received (p2p w)); [|done].
      apply transport_calls_packets.
  - destruct (get_handle w) as [t|] eqn:Ht.
    + pose proof (receive_loop_sdk_spec (N.to_nat max_packets) t 0 w) as Hloop.
      simpl in Hloop. rewrite N2Nat.id in Hloop.
      destruct Hloop as (Hr & Hp & Ha & Hc & Hl); [lia|].
      destruct (receive_loop_sdk (N.to_nat max_packets) t 0 w) as [[n w2] tr].
      done.
    + unfold result_of, world_of, trace_of. simpl.
      unfold credit_received. simpl. rewrite with_connections_same.
      destruct (on_packet_received _); repeat split; try done; lia.
Qed.

(** C7. On an initialised manager [receive_packets(max_packets)] takes
    packets from the head of the inbound queue, oldest first, and calls
    the packet handler on each of them in that order; it takes at most
    [max_packets] of them and returns how many it took.  Without a
    registered handler the packets are taken all the same and no
    handler is called: in the stub build they are gone from
    [m_incoming_packets], and in neither build does the manager keep
    them. *)
Theorem receive_packets_drains (stub : bool) (w : World T) (max_packets : N) :
  m_initialized (p2p w) = true → max_packets < 2 ^ 32 →
  let pkts := drained stub w max_packets in
  let r := receive_packets stub max_packets w in
  result_of r = N.of_nat (length pkts) ∧
  result_of r ≤ max_packets ∧
  handler_calls (trace_of r)
    = (if on_packet_received (p2p w)
       then Call_on_packet_received <$> pkts else []) ∧
  (stub = true →
     m_incoming_packets (p2p w) = pkts ++ m_incoming_packets (p2p (world_of r)) ∧
     transport_calls (trace_of r) = []) ∧
  (stub = false →
     m_incoming_packets (p2p (world_of r)) = m_incoming_packets (p2p w)).
Proof.
  intros Hi Hmax pkts r.
  destruct (receive_packets_spec stub w max_packets Hi Hmax)
    as (Hr & Hp & Ha & Hc & Hl & Htc).
  fold pkts r in Hr, Hp, Ha, Hc, Hl, Htc.
  split; [done|]. split; [rewrite Hr; lia|]. split; [done|]. split.
  - intros ->. split; [|by apply Htc]. rewrite Hp. simpl. subst pkts.
    unfold drained. by rewrite take_drop.
  - intros ->. rewrite Hp. by destruct (p2p w).
Qed.

End Drain.

Lemma receive_packets_drains_witness :
  let a := mkIncomingPacket 7 0 [x01] in
  let b := mkIncomingPacket 7 1 [x02; x03] in
  let c := mkIncomingPacket 9 0 [x04] in
  let w := running_world ∅ [a; b; c] [] in
  let r := receive_packets true 2 w in
  result_of r = 2 ∧
  trace_of r = [Call_on_packet_received a; Call_on_packet_received b] ∧
  m_incoming_packets (p2p (world_of r)) = [c] ∧
  result_of r = N.of_nat (length (drained true w 2)).
Proof.
  intros a b c w r. split; [reflexivity|]. split; [reflexivity|].
  split; [reflexivity|].
  apply (receive_packets_drains true w 2); reflexivity.
Defined.

Section Disconnect.
Context {T : Type} `{!EOS_SDK T}.

Lemma disconnect_from_peer_stub (w : World T) peer :
  m_initialized (p2p w) = true → peer ≠ nullptr →
  disconnect_from_peer true peer w
    = (tt, set_p2p (with_connections (delete peer)) w,
       if on_connection_closed (p2p w)
       then [Call_on_connection_closed peer Disconnected] else []).
Proof.
  intros Hi Hp. unfold disconnect_from_peer. run. rewrite Hi. simpl.
  destruct (N.eqb_spec peer nullptr); [done|]. simpl.
  destruct (on_connection_closed (p2p w)); reflexivity.
Qed.

Lemma disconnect_from_peer_sdk (w : World T) peer :
  m_initialized (p2p w) = true → peer ≠ nullptr →
  disconnect_from_peer false peer w
    = match get_handle w with
      | Some t =>
          let o := close_options w peer in
          (tt, set_p2p (with_connections (delete peer))
                 (set_handle (Some (EOS_P2P_CloseConnection t o)) w),
           [Sdk_CloseConnection o])
      | None => (tt, w, [])
      end.
Proof.
  intros Hi Hp. unfold disconnect_from_peer. run. rewrite Hi. simpl.
  destruct (N.eqb_spec peer nullptr); [done|]. simpl.
  destruct (get_handle w); reflexivity.
Qed.

(** C4, as the code has it. [disconnect_from_peer], on an initialised
    manager and for a non-null peer, removes the peer's entry whatever
    its state (in the SDK build provided the platform handle is live)
    and touches no other entry; for a peer without an entry the table
    is unchanged.  In the stub build it then calls the
    connection-closed handler with [Disconnected] whenever one is
    registered, for an unknown peer as for a known one.  In the SDK
    build it asks the SDK to close the connection and calls no handler:
    the connection-closed handler is called with [Disconnected] by the
    SDK's notification, [handle_connection_closed], which removes the
    entry as well. *)
Theorem disconnect_from_peer_removes (stub : bool) (w : World T) peer :
  m_initialized (p2p w) = true → peer ≠ nullptr →
  let r := disconnect_from_peer stub peer w in
  let n := handle_connection_closed peer w in
  (stub = true ∨ is_Some (get_handle w) →
     connections (world_of r) = delete peer (connections w)) ∧
  (connections w !! peer = None → connections (world_of r) = connections w) ∧
  (stub = true →
     trace_of r = if on_connection_closed (p2p w)
                  then [Call_on_connection_closed peer Disconnected] else []) ∧
  (stub = false →
     handler_calls (trace_of r) = [] ∧
     ∀ t, get_handle w = Some t →
          trace_of r = [Sdk_CloseConnection (close_options w peer)]) ∧
  connections (world_of n) = delete peer (connections w) ∧
  trace_of n = (if on_connection_closed (p2p w)
                then [Call_on_connection_closed peer Disconnected] else []).
Proof.
  intros Hi Hp r n. subst r n. destruct stub.
  - rewrite disconnect_from_peer_stub by done.
    unfold world_of, trace_of, connections, handle_connection_closed. run.
    split; [done|]. split; [by apply delete_id|]. split; [done|].
    split; [done|]. by destruct (on_connection_closed (p2p w)).
  - rewrite disconnect_from_peer_sdk by done.
    unfold world_of, trace_of, connections, handle_connection_closed. run.
    split; [|split; [|split; [done|split]]].
    + intros [?|[t Ht]]; [done|]. by rewrite Ht.
    + intros Hnone. destruct (get_handle w); [|done]. simpl.
      by apply delete_id.
    + intros _. destruct (get_handle w) as [t|]; simpl.
      * split; [by rewrite handler_calls_cons|]. done.
      * done.
    + by destruct (on_connection_closed (p2p w)).
Qed.

End Disconnect.

(** C4, counterexample to the claim as stated: in the stub build
    disconnecting a peer that has no entry calls the connection-closed
    handler; in the SDK build disconnecting a known peer calls no
    handler. *)
Lemma disconnect_from_peer_counterexample :
  let w := running_world ∅ [] [] in
  connections w !! 7 = None ∧
  trace_of (disconnect_from_peer true 7 w)
    = [Call_on_connection_closed 7 Disconnected] ∧
  let w' := running_world {[7 := established_entry 7]} [] [] in
  is_Some (connections w' !! 7) ∧
  on_connection_closed (p2p w') = true ∧
  handler_calls (trace_of (disconnect_from_peer false 7 w')) = [].
Proof. vm_compute. split; [done|]. split; [done|]. split; [eauto|done]. Qed.

Lemma disconnect_from_peer_removes_witness :
  let w := running_world {[7 := established_entry 7; 9 := connecting_entry 9]} [] [] in
  connections (world_of (disconnect_from_peer true 7 w)) = delete 7 (connections w) ∧
  trace_of (disconnect_from_peer true 7 w)
    = [Call_on_connection_closed 7 Disconnected].
Proof.
  intros w.
  destruct (disconnect_from_peer_removes true w 7) as (Hd & _ & Ht & _);
    [reflexivity|done|].
  split; [apply Hd; by left|by apply Ht].
Defined.

Section Notifications.
Context {T : Type} `{!EOS_SDK T}.

Lemma credit_received_status (pkts : list IncomingPacket) :
  ∀ (m : gmap EOS_ProductUserId PeerConnection) p,
    status <$> credit_received pkts m !! p = status <$> m !! p.
Proof.
  unfold credit_received.
  induction pkts as [|pkt pkts IH]; intros m p; [done|].
  simpl. rewrite IH.
  destruct (decide (sender pkt = p)) as [->|Hne].
  - rewrite lookup_alter_eq. by destruct (m !! p).
  - by rewrite lookup_alter_ne.
Qed.

Lemma established_calls_of_handler_calls (tr : list Event) :
  established_calls tr = established_calls (handler_calls tr).
Proof.
  unfold established_calls, handler_calls.
  induction tr as [|e tr IH]; [done|].
  rewrite !filter_cons. destruct e; simpl;
    repeat (rewrite decide_True by done); repeat (rewrite decide_False by done);
    rewrite ?filter_cons; simpl;
    repeat (rewrite decide_True by done); repeat (rewrite decide_False by done);
    by rewrite IH.
Qed.

Lemma established_calls_packets (l : list IncomingPacket) :
  established_calls (Call_on_packet_received <$> l) = [].
Proof.
  unfold established_calls. induction l as [|x l IHl]; [done|].
  rewrite fmap_cons, filter_cons. simpl. exact IHl.
Qed.

Lemma handle_connection_established_spec (w : World T) peer :
  let e := handle_connection_established peer w in
  status <$> connections (world_of e) !! peer = Some Connected ∧
  (∀ p, p ≠ peer → connections (world_of e) !! p = connections w !! p) ∧
  auth (world_of e) = auth w ∧
  trace_of e = (if on_connection_established (p2p w)
                then [Call_on_connection_established peer Connected] else []).
Proof.
  unfold handle_connection_established, world_of, trace_of, connections. run.
  destruct (m_connections (p2p w) !! peer) eqn:Hl;
    destruct (on_connection_established (p2p w)); simpl; rewrite ?Hl;
    (split; [by rewrite lookup_insert_eq|]);
    (split; [intros q Hq; by rewrite lookup_insert_ne|done]).
Qed.

(** C1, as the code has it. Receiving packets does not drive the
    connection state: [receive_packets] leaves the status of every
    peer as it was, creates no entry and never calls the
    connection-established handler.  A peer becomes [Connected] by the
    SDK's connection-established notification,
    [handle_connection_established]: whatever entry the peer had - none,
    [Connecting] or any other - its entry is then [Connected], and the
    handler, when registered, is called once for that notification.
    After [connect_to_peer] and one such notification [is_connected_to]
    answers true; in the SDK build the handler has then been called
    exactly once, while in the stub build [connect_to_peer] alone
    already stores a [Connected] entry and calls the handler once. *)
Theorem connected_by_notification (stub : bool) (w : World T) peer max_packets :
  m_initialized (p2p w) = true → max_packets < 2 ^ 32 → peer ≠ nullptr →
  let r := receive_packets stub max_packets w in
  let e := handle_connection_established peer w in
  let c := connect_to_peer stub peer w in
  let e' := handle_connection_established peer (world_of c) in
  (∀ p, status <$> connections (world_of r) !! p = status <$> connections w !! p) ∧
  established_calls (trace_of r) = [] ∧
  status <$> connections (world_of e) !! peer = Some Connected ∧
  trace_of e = (if on_connection_established (p2p w)
                then [Call_on_connection_established peer Connected] else []) ∧
  result_of (is_connected_to peer (world_of e')) = true ∧
  (on_connection_established (p2p w) = true →
     if stub
     then result_of (is_connected_to peer (world_of c)) = true ∧
          established_calls (trace_of c)
            = [Call_on_connection_established peer Connected]
     else established_calls (trace_of c ++ trace_of e')
            = [Call_on_connection_established peer Connected]).
Proof.
  intros Hi Hmax Hp r e c e'.
  destruct (receive_packets_spec stub w max_packets Hi Hmax)
    as (_ & Hrp & _ & Hrc & _ & _). fold r in Hrp, Hrc.
  destruct (handle_connection_established_spec w peer) as (He & _ & _ & Het).
  fold e in He, Het.
  destruct (handle_connection_established_spec (world_of c) peer)
    as (He' & _ & _ & Het'). fold e' in He', Het'.
  split; [|split; [|split; [done|split; [done|split]]]].
  - intros p. unfold connections. rewrite Hrp. destruct stub; [done|].
    simpl. apply credit_received_status.
  - rewrite established_calls_of_handler_calls, Hrc.
    destruct (on_packet_received (p2p w)); [|done].
    apply established_calls_packets.
  - unfold is_connected_to, result_of, gets. simpl.
    unfold connections in He'.
    destruct (m_connections (p2p (world_of e')) !! peer) as [entry|]; [|done].
    simpl in He'. injection He' as ->. done.
  - intros Hcb. destruct stub.
    + subst c. rewrite connect_to_peer_stub by done.
      unfold is_connected_to, result_of, world_of, trace_of, gets. simpl.
      rewrite lookup_insert_eq, Hcb. done.
    + pose proof (connect_to_peer_frame false w peer Hi Hp) as (_ & _ & _ & Hs).
      simpl in Hs. fold c in Hs.
      apply same_settings in Hs as (_ & _ & _ & Hcb' & _).
      rewrite Het', Hcb', Hcb.
      assert (established_calls (trace_of c) = []) as Hc0.
      { subst c. rewrite connect_to_peer_sdk by done. unfold trace_of at 1.
        simpl.
        destruct (decide (sendable w peer (Some hello) 1)) as [Hok|Hno].
        - destruct (get_handle w) as [t|] eqn:Ht.
          + by rewrite (send_packet_sdk _ _ _ _ _ _ t).
          + by rewrite send_packet_sdk_no_platform.
        - rewrite send_packet_rejects; [done|].
          unfold sendable in Hno. rewrite Hi in Hno.
          destruct (decide (1 ≤ max_packet_size (m_config (p2p w)))).
          + exfalso. apply Hno. repeat split; eauto.
          + right. right. right. right. lia. }
      unfold established_calls in *. by rewrite filter_app, Hc0.
Qed.

End Notifications.

(** C1, counterexample to the claim as stated (SDK build): after
    [connect_to_peer] two packets from the peer - the hello and an
    application packet - are received in one call of [receive_packets];
    the peer is still [Connecting] and the connection-established
    handler was never called.  A packet from a peer without an entry
    creates none. *)
Lemma packets_do_not_connect_counterexample :
  let hello_packet := mkIncomingPacket 7 0 [x01] in
  let app_packet := mkIncomingPacket 7 1 [x41; x42] in
  let w := running_world ∅ [] [hello_packet; app_packet] in
  let c := connect_to_peer false 7 w in
  let r := receive_packets false 100 (world_of c) in
  result_of r = 2 ∧
  handler_calls (trace_of r)
    = [Call_on_packet_received hello_packet; Call_on_packet_received app_packet] ∧
  status <$> connections (world_of r) !! 7 = Some Connecting ∧
  result_of (is_connected_to 7 (world_of r)) = false ∧
  established_calls (trace_of c ++ trace_of r) = [] ∧
  connections (world_of (receive_packets false 100 w)) !! 7 = None.
Proof. vm_compute. done. Qed.

Lemma connected_by_notification_witness :
  let w := running_world {[7 := connecting_entry 7]} [] [] in
  status <$> connections (world_of (handle_connection_established 7 w)) !! 7
    = Some Connected ∧
  trace_of (handle_connection_established 7 w)
    = [Call_on_connection_established 7 Connected].
Proof.
  intros w.
  destruct (connected_by_notification false w 7 100) as (_ & _ & Hs & Ht & _);
    [reflexivity|reflexivity|done|].
  split; [exact Hs|exact Ht].
Defined.

Section Accept.
Context {T : Type} `{!EOS_SDK T}.

Lemma accept_connections_spec (stub : bool) (w : World T) peer :
  let a := accept_connections stub peer w in
  p2p (world_of a) = p2p w ∧ auth (world_of a) = auth w ∧
  (is_Some (get_handle w) → is_Some (get_handle (world_of a))) ∧
  trace_of a
    = (if m_initialized (p2p w) && negb stub
       then match get_handle w with
            | Some _ => [Sdk_AcceptConnection (accept_options w peer)]
            | None => []
            end
       else []).
Proof.
  unfold accept_connections, world_of, trace_of. run.
  destruct (m_initialized (p2p w)); simpl; [|done].
  destruct stub; simpl; [done|].
  destruct (get_handle w); simpl; [|done].
  split; [done|]. split; [done|]. split; [eauto|done].
Qed.

(** C5, as the code has it. The manager keeps no accept filter:
    [accept_connections(Q)] stores nothing, and a later connection
    request from any peer R, equal to Q or not, is answered by
    [handle_connection_request] with [accept_connections(R)].  In the
    SDK build (manager initialised, platform handle live) that is one
    call of [EOS_P2P_AcceptConnection] naming R; in the stub build
    nothing happens.  In neither build does a request create a registry
    entry or call a handler - the request of the permitted peer does
    not make it [Connected] either. *)
Theorem connection_requests_are_accepted (stub : bool) (w : World T) Q R :
  m_initialized (p2p w) = true →
  let a := accept_connections stub Q w in
  let r := handle_connection_request stub R (world_of a) in
  p2p (world_of a) = p2p w ∧
  p2p (world_of r) = p2p w ∧
  handler_calls (trace_of a ++ trace_of r) = [] ∧
  trace_of r
    = (if stub then []
       else match get_handle w with
            | Some _ => [Sdk_AcceptConnection (accept_options w R)]
            | None => []
            end).
Proof.
  intros Hi a r.
  destruct (accept_connections_spec stub w Q) as (Hp & Ha & Hh & Ht).
  fold a in Hp, Ha, Hh, Ht.
  destruct (accept_connections_spec stub (world_of a) R) as (Hp' & Ha' & Hh' & Ht').
  unfold handle_connection_request in r. fold r in Hp', Ha', Hh', Ht'.
  rewrite Hp, Hi in Ht'. rewrite Hi in Ht. simpl in Ht, Ht'.
  assert (accept_options (world_of a) R = accept_options w R) as Ho.
  { unfold accept_options. by rewrite Hp, Ha. }
  rewrite Ho in Ht'.
  split; [done|]. split; [congruence|].
  rewrite Ht, Ht'. destruct stub; simpl; [done|].
  destruct (get_handle w) as [t|] eqn:Hw.
  - destruct Hh as [t' Ht'']; [eauto|]. rewrite Ht''.
    by rewrite handler_calls_app, !handler_calls_cons.
  - assert (get_handle (world_of a) = None) as ->; [|done].
    subst a. unfold accept_connections, world_of. run.
    rewrite Hi. simpl. by rewrite Hw.
Qed.

End Accept.

(** C5, counterexample to the claim as stated (SDK build): after
    [accept_connections(Q)] a request from another peer R is not dropped
    but accepted at the SDK, and the request of Q itself neither creates
    an entry for Q nor calls the connection-established handler. *)
Lemma accept_filter_counterexample :
  let Q := 7 in
  let R := 9 in
  let w := running_world ∅ [] [] in
  let a := world_of (accept_connections false Q w) in
  let from_R := handle_connection_request false R a in
  let from_Q := handle_connection_request false Q (world_of from_R) in
  (∃ o, trace_of from_R = [Sdk_AcceptConnection o] ∧ accept_RemoteUserId o = R) ∧
  connections (world_of from_Q) !! Q = None ∧
  established_calls (trace_of from_Q) = [].
Proof. vm_compute. split; [eexists; split; reflexivity|done]. Qed.

Lemma connection_requests_are_accepted_witness :
  let w := running_world ∅ [] [] in
  trace_of (handle_connection_request false 9
              (world_of (accept_connections false 7 w)))
    = [Sdk_AcceptConnection (accept_options w 9)].
Proof.
  intros w.
  apply (connection_requests_are_accepted false w 7 9). reflexivity.
Defined.

Section Broadcast.
Context {T : Type} `{!EOS_SDK T}.

Lemma elem_of_connected_peers (m : gmap EOS_ProductUserId PeerConnection) p :
  p ∈ connected_peers m ↔ ∃ c, m !! p = Some c ∧ status c = Connected.
Proof.
  unfold connected_peers. rewrite list_elem_of_fmap. split.
  - intros ([k c] & -> & Hin). apply list_elem_of_filter in Hin as [Hst Hin].
    apply elem_of_map_to_list in Hin. eauto.
  - intros (c & Hl & Hst). exists (p, c). split; [done|].
    apply list_elem_of_filter. split; [done|]. by apply elem_of_map_to_list.
Qed.

Lemma NoDup_connected_peers (m : gmap EOS_ProductUserId PeerConnection) :
  NoDup (connected_peers m).
Proof.
  unfold connected_peers.
  eapply sublist_NoDup; [apply (NoDup_fst_map_to_list m)|].
  apply fmap_sublist, sublist_filter.
Qed.

Lemma filter_all (P : N → Prop) `{∀ x, Decision (P x)} (l : list N) :
  (∀ x, x ∈ l → P x) → filter P l = l.
Proof.
  induction l as [|x l IH]; intros Hall; [done|].
  rewrite filter_cons_True by (apply Hall; left).
  f_equal. apply IH. intros y Hy. apply Hall. by right.
Qed.

(** The loop of [broadcast_packet] in the SDK build. *)
Lemma broadcast_loop_sdk (w : World T) data size chan rel (l : list N) :
  ∀ w0 : World T,
    m_initialized (p2p w0) = true → m_config (p2p w0) = m_config (p2p w) →
    auth w0 = auth w → is_Some (get_handle w0) →
    is_Some data → size ≠ 0 → size ≤ max_packet_size (m_config (p2p w)) →
    trace_of (for_each (λ peer_id, send_packet false peer_id data size chan rel
                                     >> ret tt) l w0)
      = (λ p, Sdk_SendPacket (send_options w p data size chan rel))
          <$> filter (λ p, p ≠ nullptr) l.
Proof.
  induction l as [|p l IH]; intros w0 Hi Hcfg Ha [t Ht] Hd Hs Hm; [done|].
  simpl. unfold bind at 1. unfold bind at 1.
  pose proof (send_packet_frame false w0 p data size chan rel)
    as (Ha1 & Hh1 & _ & Hs1). simpl in Ha1, Hh1, Hs1.
  apply same_settings in Hs1 as (Hi1 & Hcfg1 & _).
  assert (trace_of (send_packet false p data size chan rel w0)
          = if decide (p ≠ nullptr)
            then [Sdk_SendPacket (send_options w p data size chan rel)]
            else []) as Htr.
  { destruct (decide (p ≠ nullptr)) as [Hp|Hp].
    - rewrite (send_packet_sdk _ _ _ _ _ _ t);
        [|repeat split; try done; by rewrite Hcfg|done].
      unfold trace_of. simpl. unfold send_options. by rewrite Ha, Hcfg.
    - rewrite send_packet_rejects; [done|]. right. left.
      by destruct (decide (p = nullptr)). }
  specialize (IH (world_of (send_packet false p data size chan rel w0))).
  destruct (send_packet false p data size chan rel w0) as [[b w1] t1].
  unfold world_of, trace_of in *. simpl in *. unfold ret. simpl.
  rewrite app_nil_r.
  assert (is_Some (get_handle w1)) as Hh' by eauto.
  specialize (IH ltac:(congruence) ltac:(congruence) ltac:(congruence) Hh'
                Hd Hs Hm).
  destruct (for_each _ l w1) as [[u w2] t2] eqn:Hloop. simpl in *.
  rewrite Htr, filter_cons. subst t2.
  by destruct (decide (p ≠ nullptr)).
Qed.

(** The loop of [broadcast_packet] in the stub build. *)
Lemma broadcast_loop_stub (w : World T) data size chan rel (l : list N) :
  ∀ w0 : World T,
    m_initialized (p2p w0) = true → m_config (p2p w0) = m_config (p2p w) →
    is_Some data → size ≠ 0 → size ≤ max_packet_size (m_config (p2p w)) →
    NoDup l →
    let r := for_each (λ peer_id, send_packet true peer_id data size chan rel
                                    >> ret tt) l w0 in
    trace_of r = [] ∧
    ∀ p, connections (world_of r) !! p
         = if decide (p ∈ l ∧ p ≠ nullptr)
           then add_bytes_sent size <$> connections w0 !! p
           else connections w0 !! p.
Proof.
  induction l as [|x l IH]; intros w0 Hi Hcfg Hd Hs Hm Hnd r.
  - subst r. split; [done|]. intros p. rewrite decide_False; [done|].
    intros [Hin _]. by apply elem_of_nil in Hin.
  - apply NoDup_cons in Hnd as [Hx Hnd].
    assert (send_packet true x data size chan rel w0
            = if decide (x ≠ nullptr)
              then (true, bump_sent x size w0, [])
              else (false, w0, [])) as Hsend.
    { destruct (decide (x ≠ nullptr)) as [Hp|Hp].
      - rewrite send_packet_stub; [done|].
        repeat split; try done. by rewrite Hcfg.
      - rewrite send_packet_rejects; [done|]. right. left.
        by destruct (decide (x = nullptr)). }
    assert (r = for_each (λ peer_id, send_packet true peer_id data size chan rel
                                       >> ret tt) l
                  (if decide (x ≠ nullptr) then bump_sent x size w0 else w0))
      as ->.
    { subst r. simpl. unfold bind. rewrite Hsend.
      destruct (decide (x ≠ nullptr)); simpl; unfold ret;
        by destruct (for_each _ l _) as [[[] ?] ?]. }
    destruct (decide (x ≠ nullptr)) as [Hp|Hp].
    + destruct (IH (bump_sent x size w0)) as [IHt IHc]; try done.
      split; [done|]. intros p. rewrite IHc.
      unfold connections, bump_sent. simpl.
      destruct (decide (p = x)) as [->|Hne].
      * rewrite decide_False by tauto. rewrite lookup_alter_eq.
        rewrite decide_True; [done|]. split; [left|done].
      * rewrite lookup_alter_ne by done.
        destruct (decide (p ∈ l ∧ p ≠ nullptr)) as [[Hin Hnn]|Hno].
        -- rewrite decide_True; [done|]. split; [by right|done].
        -- rewrite decide_False; [done|]. intros [Hin Hnn]. apply Hno.
           apply elem_of_cons in Hin as [?|?]; done.
    + destruct (IH w0) as [IHt IHc]; try done.
      split; [done|]. intros p. rewrite IHc.
      destruct (decide (p ∈ l ∧ p ≠ nullptr)) as [[Hin Hnn]|Hno].
      * rewrite decide_True; [done|]. split; [by right|done].
      * rewrite decide_False; [done|]. intros [Hin Hnn]. apply Hno.
        apply elem_of_cons in Hin as [->|?]; [|done]. done.
Qed.

(** C6. [broadcast_packet] sends to the peers that are [Connected] in
    the table when it is called, to each of them once and to no other
    peer: in the SDK build it hands one packet per such peer to the SDK
    and none for a peer that is [Connecting] or failed; in the stub
    build, where a send is only counted, exactly their sent-byte
    counters move.  (A null key, which is no peer and which no public
    operation stores, is skipped by [send_packet].)  With no [Connected]
    peer it changes nothing and makes no call at all. *)
Theorem broadcast_packet_fans_out (stub : bool) (w : World T) data size chan rel :
  let targets := connected_peers (connections w) in
  let b := broadcast_packet stub data size chan rel w in
  (∀ p, p ∈ targets ↔ ∃ c, connections w !! p = Some c ∧ status c = Connected) ∧
  NoDup targets ∧
  (connections w !! nullptr = None → filter (λ p, p ≠ nullptr) targets = targets) ∧
  (targets = [] → b = (tt, w, [])) ∧
  (m_initialized (p2p w) = true → is_Some data → size ≠ 0 →
   size ≤ max_packet_size (m_config (p2p w)) →
     if stub
     then trace_of b = [] ∧
          ∀ p, connections (world_of b) !! p
               = if decide (p ∈ targets ∧ p ≠ nullptr)
                 then add_bytes_sent size <$> connections w !! p
                 else connections w !! p
     else is_Some (get_handle w) →
          trace_of b
            = (λ p, Sdk_SendPacket (send_options w p data size chan rel))
                <$> filter (λ p, p ≠ nullptr) targets).
Proof.
  intros targets b.
  split; [intros p; apply elem_of_connected_peers|].
  split; [apply NoDup_connected_peers|].
  split.
  { intros Hnull. apply filter_all. intros p Hin ->.
    apply elem_of_connected_peers in Hin as (c & Hc & _). congruence. }
  assert (b = for_each (λ peer_id, send_packet stub peer_id data size chan rel
                                     >> ret tt) targets w) as ->.
  { subst b. unfold broadcast_packet. unfold bind at 1. unfold gets at 1.
    fold (connections w). fold targets.
    by destruct (for_each _ targets w) as [[[] ?] ?]. }
  split.
  - intros ->. reflexivity.
  - intros Hi Hd Hs Hm. destruct stub.
    + apply (broadcast_loop_stub w); try done. apply NoDup_connected_peers.
    + intros Hh. by apply (broadcast_loop_sdk w).
Qed.

End Broadcast.

Lemma broadcast_packet_fans_out_witness :
  let w := running_world {[7 := established_entry 7; 9 := connecting_entry 9;
                           11 := established_entry 11]} [] [] in
  let b := broadcast_packet false (Some [x41; x42]) 2 0 UnreliableUnordered w in
  send_RemoteUserId <$> (omap (λ e, match e with Sdk_SendPacket o => Some o
                                         | _ => None end) (trace_of b))
    ≡ₚ [7; 11] ∧
  trace_of b
    = (λ p, Sdk_SendPacket (send_options w p (Some [x41; x42]) 2 0
                              UnreliableUnordered))
        <$> filter (λ p, p ≠ nullptr) (connected_peers (connections w)).
Proof.
  intros w b. split.
  - vm_compute. apply Permutation_swap.
  - destruct (broadcast_packet_fans_out false w (Some [x41; x42]) 2 0
                UnreliableUnordered) as (_ & _ & _ & H).
    apply H; [reflexivity|eauto|done|done|eauto].
Defined.

Section Counters.
Context {T : Type} `{!EOS_SDK T}.

Lemma counters_le_refl m : counters_le m m.
Proof. intros p c Hc. exists c. split; [done|]. lia. Qed.

Lemma counters_le_trans m1 m2 m3 :
  counters_le m1 m2 → counters_le m2 m3 → counters_le m1 m3.
Proof.
  intros H12 H23 p c Hc.
  destruct (H12 p c Hc) as (c2 & Hc2 & ? & ?).
  destruct (H23 p c2 Hc2) as (c3 & Hc3 & ? & ?).
  exists c3. split; [done|]. lia.
Qed.

Lemma wrap64_small n : n < 2 ^ 64 → wrap64 n = n.
Proof. intros. unfold wrap64. by apply N.mod_small. Qed.

Lemma headroom_weaken k k' m : k' ≤ k → headroom k m → headroom k' m.
Proof. intros Hk Hm p c Hc. destruct (Hm p c Hc). lia. Qed.

(** One [+=] on a counter of [peer], of at most [k] bytes. *)
Lemma counters_le_alter_sent k n peer m :
  n ≤ k → headroom k m → counters_le m (alter (add_bytes_sent n) peer m).
Proof.
  intros Hn Hm p c Hc. destruct (decide (peer = p)) as [->|Hne].
  - rewrite lookup_alter_eq, Hc. simpl. eexists. split; [done|]. simpl.
    destruct (Hm p c Hc). rewrite wrap64_small by lia. lia.
  - rewrite lookup_alter_ne by done. exists c. split; [done|]. lia.
Qed.

Lemma received_step k n peer m :
  headroom (k + n) m →
  counters_le m (alter (add_bytes_received n) peer m) ∧
  headroom k (alter (add_bytes_received n) peer m).
Proof.
  intros Hm. split.
  - intros p c Hc. destruct (decide (peer = p)) as [->|Hne].
    + rewrite lookup_alter_eq, Hc. simpl. eexists. split; [done|]. simpl.
      destruct (Hm p c Hc). rewrite wrap64_small by lia. lia.
    + rewrite lookup_alter_ne by done. exists c. split; [done|]. lia.
  - intros p c. destruct (decide (peer = p)) as [->|Hne].
    + rewrite lookup_alter_eq. destruct (m !! p) as [c0|] eqn:Hc0; [|done].
      simpl. intros [= <-]. simpl. destruct (Hm p c0 Hc0).
      rewrite wrap64_small by lia. lia.
    + rewrite lookup_alter_ne by done. intros Hc. destruct (Hm p c Hc). lia.
Qed.

Lemma counters_le_credit_received (bound : N) (pkts : list IncomingPacket) :
  ∀ m,
    Forall (λ pkt, N.of_nat (length (data pkt)) ≤ bound) pkts →
    headroom (N.of_nat (length pkts) * bound) m →
    counters_le m (credit_received pkts m).
Proof.
  unfold credit_received.
  induction pkts as [|pkt pkts IH]; intros m Hb Hm; [apply counters_le_refl|].
  apply Forall_cons in Hb as [Hb1 Hb]. simpl.
  destruct (received_step (N.of_nat (length pkts) * bound)
              (N.of_nat (length (data pkt))) (sender pkt) m) as [Hle Hroom].
  - eapply headroom_weaken; [|exact Hm]. simpl length. nia.
  - eapply counters_le_trans; [exact Hle|]. by apply IH.
Qed.

Lemma sdk_polled_bounded (budget : nat) :
  ∀ (t : T) local,
    Forall (λ pkt, N.of_nat (length (data pkt)) ≤ 2 ^ 32 - 1)
      (sdk_polled budget t local).
Proof.
  induction budget as [|budget IH]; intros t local; [constructor|].
  simpl. destruct (EOS_P2P_GetNextReceivedPacketSize t local) as [[r size] t1].
  destruct (bool_decide (r = EOS_Success)); [|constructor]. simpl.
  destruct (EOS_P2P_ReceivePacket t1 _) as [rp t2].
  destruct (bool_decide (rp_result rp = EOS_Success)); [|constructor].
  constructor; [|apply IH].
  rewrite received_packet_length. unfold wrap32.
  pose proof (N.mod_upper_bound (rp_bytes_received rp) (2 ^ 32)). lia.
Qed.

Lemma receive_packets_counters (stub : bool) (w : World T) (max_packets : N) :
  m_initialized (p2p w) = true → max_packets < 2 ^ 32 →
  headroom (max_packets * (2 ^ 32 - 1)) (connections w) →
  counters_le (connections w)
    (connections (world_of (receive_packets stub max_packets w))).
Proof.
  intros Hi Hmax Hroom.
  destruct (receive_packets_spec stub w max_packets Hi Hmax)
    as (_ & Hp & _ & _ & Hl & _).
  unfold connections. rewrite Hp. destruct stub; [apply counters_le_refl|].
  simpl. apply (counters_le_credit_received (2 ^ 32 - 1)).
  - unfold drained. destruct (get_handle w); [apply sdk_polled_bounded|constructor].
  - eapply headroom_weaken; [|exact Hroom].
    apply N.mul_le_mono_r. fold (drained false w max_packets). lia.
Qed.

Lemma send_packet_counters (stub : bool) (w : World T) peer data size chan rel :
  headroom size (connections w) →
  counters_le (connections w)
    (connections (world_of (send_packet stub peer data size chan rel w))).
Proof.
  intros Hroom.
  destruct (send_packet_frame stub w peer data size chan rel)
    as (_ & _ & [-> | ->] & _); [apply counters_le_refl|].
  by apply (counters_le_alter_sent size).
Qed.

Lemma send_packet_success (stub : bool) (w : World T) peer data size chan rel :
  result_of (send_packet stub peer data size chan rel w) = true →
  connections (world_of (send_packet stub peer data size chan rel w))
    = alter (add_bytes_sent size) peer (connections w).
Proof.
  destruct (decide (sendable w peer data size)) as [Hok|Hno].
  - destruct stub.
    + by rewrite send_packet_stub.
    + destruct (get_handle w) as [t|] eqn:Ht.
      * rewrite (send_packet_sdk _ _ _ _ _ _ t) by done.
        unfold result_of, world_of. simpl. by intros ->.
      * by rewrite send_packet_sdk_no_platform.
  - rewrite send_packet_rejects; [done|].
    unfold sendable in Hno.
    destruct (m_initialized (p2p w)); [|eauto].
    destruct (decide (peer = nullptr)); [eauto|].
    destruct data; [|eauto].
    destruct (decide (size = 0)); [eauto|].
    destruct (decide (size ≤ max_packet_size (m_config (p2p w)))).
    + exfalso. apply Hno. eauto 10.
    + right. right. right. right. lia.
Qed.

(** The loop of [broadcast_packet]: a peer's entry is touched at most
    once, and only if the peer is in the list. *)
Lemma broadcast_loop_counters (stub : bool) data size chan rel (l : list N) :
  ∀ w0 : World T, NoDup l →
    let r := for_each (λ peer_id, send_packet stub peer_id data size chan rel
                                    >> ret tt) l w0 in
    ∀ p, (p ∉ l → connections (world_of r) !! p = connections w0 !! p) ∧
         (connections (world_of r) !! p = connections w0 !! p ∨
          connections (world_of r) !! p
            = add_bytes_sent size <$> connections w0 !! p).
Proof.
  induction l as [|x l IH]; intros w0 Hnd r p; [by split; [|left]|].
  apply NoDup_cons in Hnd as [Hx Hnd].
  set (w1 := world_of (send_packet stub x data size chan rel w0)).
  assert (world_of r
          = world_of (for_each (λ peer_id, send_packet stub peer_id data size
                                              chan rel >> ret tt) l w1)) as ->.
  { subst r w1. simpl. unfold bind, world_of, ret.
    destruct (send_packet stub x data size chan rel w0) as [[b w1] t1]. simpl.
    by destruct (for_each _ l w1) as [[[] w2] t2]. }
  destruct (IH w1 Hnd p) as [IHout IHin].
  destruct (send_packet_frame stub w0 x data size chan rel)
    as (_ & _ & Hc & _). fold w1 in Hc.
  assert (∀ q, q ≠ x → connections w1 !! q = connections w0 !! q) as Hother.
  { intros q Hq. destruct Hc as [-> | ->]; [done|]. by rewrite lookup_alter_ne. }
  assert (connections w1 !! x = connections w0 !! x ∨
          connections w1 !! x = add_bytes_sent size <$> connections w0 !! x)
    as Hx'.
  { destruct Hc as [-> | ->]; [by left|]. right. apply lookup_alter_eq. }
  split.
  - intros Hp. apply not_elem_of_cons in Hp as [Hpx Hpl].
    rewrite IHout by done. by apply Hother.
  - destruct (decide (p = x)) as [->|Hne].
    + rewrite IHout by done. done.
    + by rewrite <- (Hother p Hne).
Qed.

Lemma broadcast_packet_counters (stub : bool) (w : World T) data size chan rel :
  headroom size (connections w) →
  counters_le (connections w)
    (connections (world_of (broadcast_packet stub data size chan rel w))).
Proof.
  intros Hroom.
  assert (world_of (broadcast_packet stub data size chan rel w)
          = world_of (for_each (λ peer_id, send_packet stub peer_id data size
                                              chan rel >> ret tt)
                        (connected_peers (connections w)) w)) as ->.
  { unfold broadcast_packet. unfold bind at 1. unfold gets at 1.
    fold (connections w).
    by destruct (for_each _ (connected_peers (connections w)) w) as [[[] ?] ?]. }
  intros p c Hc.
  destruct (broadcast_loop_counters stub data size chan rel
              (connected_peers (connections w)) w
              (NoDup_connected_peers _) p) as [_ [-> | ->]].
  - exists c. split; [done|]. lia.
  - rewrite Hc. simpl. eexists. split; [done|]. simpl.
    destruct (Hroom p c Hc). rewrite wrap64_small by lia. lia.
Qed.

Lemma handle_connection_established_counters (w : World T) peer :
  counters_le (connections w)
    (connections (world_of (handle_connection_established peer w))).
Proof.
  unfold handle_connection_established, world_of, connections. run.
  intros p c Hc.
  destruct (on_connection_established (p2p w)); simpl;
    destruct (m_connections (p2p w) !! peer) as [c0|] eqn:Hl;
    (destruct (decide (peer = p)) as [->|Hne];
       [rewrite lookup_insert_eq|rewrite lookup_insert_ne by done]);
    try (exists c; split; [done|lia]);
    rewrite Hc in Hl; try done;
    injection Hl as <-; eexists; (split; [done|]); simpl; lia.
Qed.

(** C9, as the code has it. A [send_packet] that returns true adds the
    payload size to the sent-byte counter of the peer's entry, modulo
    2^64 - so exactly the payload size unless the 64-bit counter wraps
    - and leaves the received-byte counter and every other entry as
    they were; for a peer without an entry it returns true as well and
    counts nothing.  Across [send_packet], [broadcast_packet],
    [receive_packets], the connection-established notification,
    [accept_connections] and [initialize] no counter of an entry
    decreases, as long as no 64-bit counter wraps around.  The counters
    are not monotone across [connect_to_peer], which replaces the
    peer's entry by a fresh one with both counters at 0. *)
Theorem byte_counters (stub : bool) (w : World T) peer data size chan rel
    max_packets config :
  let s := send_packet stub peer data size chan rel w in
  (result_of s = true →
     connections (world_of s) = alter (add_bytes_sent size) peer (connections w) ∧
     (connections w !! peer = None → connections (world_of s) = connections w) ∧
     ∀ c, connections w !! peer = Some c →
       ∃ c', connections (world_of s) !! peer = Some c' ∧
             bytes_sent c' = (bytes_sent c + size) mod 2 ^ 64 ∧
             (bytes_sent c + size < 2 ^ 64 → bytes_sent c' = bytes_sent c + size) ∧
             bytes_received c' = bytes_received c) ∧
  (headroom size (connections w) →
     counters_le (connections w) (connections (world_of s)) ∧
     counters_le (connections w)
       (connections (world_of (broadcast_packet stub data size chan rel w)))) ∧
  (m_initialized (p2p w) = true → max_packets < 2 ^ 32 →
   headroom (max_packets * (2 ^ 32 - 1)) (connections w) →
     counters_le (connections w)
       (connections (world_of (receive_packets stub max_packets w)))) ∧
  counters_le (connections w)
    (connections (world_of (handle_connection_established peer w))) ∧
  connections (world_of (accept_connections stub peer w)) = connections w ∧
  connections (world_of (initialize stub config w)) = connections w ∧
  (m_initialized (p2p w) = true → peer ≠ nullptr →
     ∃ c', connections (world_of (connect_to_peer stub peer w)) !! peer = Some c' ∧
           bytes_sent c' = 0 ∧ bytes_received c' = 0).
Proof.
  intros s. split; [|split; [|split; [|split; [|split; [|split]]]]].
  - intros Hs. pose proof (send_packet_success _ _ _ _ _ _ _ Hs) as Hc.
    fold s in Hc. split; [done|]. split.
    + intros Hnone. rewrite Hc. apply map_eq. intros q.
      destruct (decide (peer = q)) as [->|Hne].
      * by rewrite lookup_alter_eq, Hnone.
      * by rewrite lookup_alter_ne.
    + intros c Hl. rewrite Hc, lookup_alter_eq, Hl. simpl. eexists.
      split; [done|]. simpl. split; [done|]. split; [|done].
      intros Hsmall. by apply wrap64_small.
  - intros Hroom. split; [by apply send_packet_counters|].
    by apply broadcast_packet_counters.
  - apply receive_packets_counters.
  - apply handle_connection_established_counters.
  - unfold connections. by destruct (accept_connections_spec stub w peer) as [-> _].
  - unfold initialize, world_of, connections. run.
    destruct (m_initialized (p2p w)); simpl; [done|].
    destruct (negb (is_logged_in (auth w))); simpl; [done|].
    destruct stub; simpl; [done|].
    unfold register_callbacks. run.
    destruct (get_handle w) eqn:Ht; simpl; rewrite ?Ht; simpl; done.
  - intros Hi Hp.
    destruct (connect_to_peer_frame stub w peer Hi Hp) as [Hc _].
    simpl in Hc. rewrite Hc, lookup_insert_eq. eexists. split; [done|].
    by destruct stub.
Qed.

End Counters.

(** C9, counterexample to the claim as stated: the sent-byte counter of
    a peer is 5 after a successful send of 5 bytes and 0 after a
    following [connect_to_peer], in the stub build and in the SDK build;
    and a send to a peer without an entry returns true and counts
    nothing. *)
Lemma byte_counters_reset_counterexample :
  let payload := Some [x41; x42; x43; x44; x45] in
  let w := running_world {[7 := established_entry 7]} [] [] in
  (let s := send_packet true 7 payload 5 0 ReliableOrdered w in
   let c := connect_to_peer true 7 (world_of s) in
   result_of s = true ∧
   bytes_sent <$> connections (world_of s) !! 7 = Some 5 ∧
   bytes_sent <$> connections (world_of c) !! 7 = Some 0) ∧
  (let s := send_packet false 7 payload 5 0 ReliableOrdered w in
   let c := connect_to_peer false 7 (world_of s) in
   result_of s = true ∧
   bytes_sent <$> connections (world_of s) !! 7 = Some 5 ∧
   bytes_sent <$> connections (world_of c) !! 7 = Some 0) ∧
  (let s := send_packet true 9 payload 5 0 ReliableOrdered w in
   result_of s = true ∧ connections (world_of s) !! 9 = None).
Proof. vm_compute. done. Qed.

Lemma byte_counters_witness :
  let payload := Some [x41; x42; x43; x44; x45] in
  let w := running_world {[7 := established_entry 7]} [] [] in
  let s := send_packet false 7 payload 5 0 ReliableOrdered w in
  result_of s = true ∧
  ∃ c', connections (world_of s) !! 7 = Some c' ∧
        bytes_sent c' = (bytes_sent (established_entry 7) + 5) mod 2 ^ 64 ∧
        (bytes_sent (established_entry 7) + 5 < 2 ^ 64 →
         bytes_sent c' = bytes_sent (established_entry 7) + 5) ∧
        bytes_received c' = bytes_received (established_entry 7).
Proof.
  intros payload w s. split; [reflexivity|].
  destruct (byte_counters false w 7 payload 5 0 ReliableOrdered 100
              P2PConfig_default) as (Hsend & _).
  destruct Hsend as (_ & _ & Hc); [reflexivity|].
  apply Hc. reflexivity.
Defined.

(** * Further properties of the member functions *)

Section InitializeAndShutdown.
Context {T : Type} `{!EOS_SDK T}.

(** X1. On a manager that is not initialised, with the user logged in and
    - in the SDK build - a live platform handle, [initialize] returns
    true, stores the configuration and sets [m_initialized]; it touches
    nothing else of the manager.  The stub build calls nothing; the SDK
    build registers the three notifications, in the order request,
    established, closed, under the socket name of the new configuration.
    A later [initialize], with whatever configuration, returns true and
    changes nothing: the first configuration stays. *)
Theorem initialize_succeeds (stub : bool) (w : World T) (config config' : P2PConfig) :
  m_initialized (p2p w) = false → is_logged_in (auth w) = true →
  stub = true ∨ is_Some (get_handle w) →
  let r := initialize stub config w in
  result_of r = true ∧
  p2p (world_of r) = with_initialized true (with_config config (p2p w)) ∧
  auth (world_of r) = auth w ∧
  trace_of r
    = (if stub then []
       else let me := get_product_user_id (auth w) in
            let sock := socket_id_of config in
            [Sdk_AddNotify PeerConnectionRequest me sock;
             Sdk_AddNotify PeerConnectionEstablished me sock;
             Sdk_AddNotify PeerConnectionClosed me sock]) ∧
  initialize stub config' (world_of r) = (true, world_of r, []).
Proof.
  intros Hi Hl Hh r.
  destruct (initialize stub config w) as [[b w1] t1] eqn:Hr. subst r.
  revert Hr. unfold initialize at 1. run. rewrite Hi. simpl. rewrite Hl. simpl.
  destruct stub; simpl.
  - intros [= <- <- <-]. unfold result_of, world_of, trace_of. simpl.
    repeat split; try done.
  - destruct Hh as [?|[t Ht]]; [done|]. rewrite Ht. simpl.
    unfold register_callbacks. run. rewrite Ht. simpl.
    intros [= <- <- <-]. unfold result_of, world_of, trace_of. simpl.
    repeat split; try done.
Qed.

(** X2. In the SDK build, when the user is logged in but the platform
    handle is null, [initialize] on a manager that is not initialised
    returns false, calls nothing and leaves the manager uninitialised -
    but the configuration passed in has already replaced the stored
    one. *)
Theorem initialize_without_platform (w : World T) (config : P2PConfig) :
  m_initialized (p2p w) = false → is_logged_in (auth w) = true →
  get_handle w = None →
  initialize false config w = (false, set_p2p (with_config config) w, []) ∧
  m_initialized (p2p (world_of (initialize false config w))) = false ∧
  m_config (p2p (world_of (initialize false config w))) = config.
Proof.
  intros Hi Hl Hh. unfold initialize, world_of. run. rewrite Hi. simpl.
  rewrite Hl. simpl. rewrite Hh. simpl. done.
Qed.

Lemma foldl_delete_lookup (l : list N) :
  ∀ (m : gmap EOS_ProductUserId PeerConnection) q,
    foldl (λ m p, delete p m) m l !! q = if decide (q ∈ l) then None else m !! q.
Proof.
  induction l as [|x l IH]; intros m q.
  - simpl. destruct (decide (q ∈ [])) as [Hin|]; [|done].
    by apply elem_of_nil in Hin.
  - simpl foldl. rewrite IH. destruct (decide (q ∈ l)) as [Hin|Hnin].
    + rewrite decide_True; [done|]. by right.
    + destruct (decide (q = x)) as [->|Hne].
      * rewrite decide_True by left. apply lookup_delete_eq.
      * rewrite decide_False; [by rewrite lookup_delete_ne|].
        intros Hq. apply elem_of_cons in Hq as [?|?]; done.
Qed.

(** The loop of [disconnect_all]. *)
Lemma disconnect_loop (stub : bool) (w : World T) (l : list N) :
  ∀ w0 : World T,
    m_initialized (p2p w0) = true → stub = true ∨ is_Some (get_handle w0) →
    auth w0 = auth w → m_config (p2p w0) = m_config (p2p w) →
    on_connection_closed (p2p w0) = on_connection_closed (p2p w) →
    let r := for_each (disconnect_from_peer stub) l w0 in
    let gone := filter (λ p, p ≠ nullptr) l in
    p2p (world_of r)
      = with_connections (λ m, foldl (λ m p, delete p m) m gone) (p2p w0) ∧
    auth (world_of r) = auth w0 ∧
    trace_of r
      = (if stub
         then if on_connection_closed (p2p w)
              then (λ p, Call_on_connection_closed p Disconnected) <$> gone
              else []
         else (λ p, Sdk_CloseConnection (close_options w p)) <$> gone).
Proof.
  induction l as [|x l IH]; intros w0 Hi Hh Ha Hcfg Hcb r gone.
  - subst r gone. unfold world_of, trace_of. simpl.
    rewrite with_connections_same.
    destruct stub; destruct (on_connection_closed (p2p w)); done.
  - subst r gone. simpl. unfold bind.
    destruct (decide (x = nullptr)) as [->|Hx].
    + assert (disconnect_from_peer stub nullptr w0 = (tt, w0, [])) as ->.
      { unfold disconnect_from_peer. run. rewrite Hi. done. }
      cbv beta iota.
      destruct (IH w0 Hi Hh Ha Hcfg Hcb) as (Hp & Ha' & Ht).
      destruct (for_each _ l w0) as [[[] w2] t2].
      rewrite filter_cons_False by (intros ?; done). done.
    + rewrite filter_cons_True by done. destruct stub.
      * rewrite disconnect_from_peer_stub by done. cbv beta iota.
        set (w1 := set_p2p (with_connections (delete x)) w0).
        destruct (IH w1) as (Hp & Ha' & Ht); try done.
        destruct (for_each _ l w1) as [[[] w2] t2].
        unfold world_of, trace_of in *. simpl in *.
        split; [by rewrite Hp; destruct (p2p w0)|]. split; [done|].
        rewrite Ht, Hcb. by destruct (on_connection_closed (p2p w)).
      * destruct Hh as [?|[t Ht0]]; [done|].
        rewrite disconnect_from_peer_sdk by done. rewrite Ht0. cbv beta iota zeta.
        set (w1 := set_p2p (with_connections (delete x))
                     (set_handle (Some (EOS_P2P_CloseConnection t
                                          (close_options w0 x))) w0)).
        destruct (IH w1) as (Hp & Ha' & Ht); try done; [right; by eexists|].
        destruct (for_each _ l w1) as [[[] w2] t2].
        unfold world_of, trace_of in *. simpl in *.
        split; [by rewrite Hp; destruct (p2p w0)|]. split; [done|].
        rewrite Ht. unfold close_options. by rewrite Ha, Hcfg.
Qed.

Lemma disconnect_all_unfold (stub : bool) (w : World T) :
  disconnect_all stub w
    = for_each (disconnect_from_peer stub) (map_to_list (connections w)).*1 w.
Proof.
  unfold disconnect_all. unfold bind at 1. unfold gets at 1.
  fold (connections w).
  by destruct (for_each _ (map_to_list (connections w)).*1 w) as [[[] ?] ?].
Qed.

(** X4. On an initialised manager (in the SDK build with a live platform
    handle) [disconnect_all] removes the entry of every peer: afterwards
    no non-null id has an entry.  It goes through the peers once: the
    stub build calls the connection-closed handler with [Disconnected]
    once per peer when one is registered, the SDK build asks the SDK once
    per peer to close the connection and calls no handler. *)
Theorem disconnect_all_removes_every_peer (stub : bool) (w : World T) :
  m_initialized (p2p w) = true → stub = true ∨ is_Some (get_handle w) →
  let r := disconnect_all stub w in
  let peers := filter (λ p, p ≠ nullptr) (map_to_list (connections w)).*1 in
  (∀ p, p ≠ nullptr → connections (world_of r) !! p = None) ∧
  connections (world_of r) !! nullptr = connections w !! nullptr ∧
  NoDup peers ∧
  (∀ p, p ∈ peers ↔ p ≠ nullptr ∧ is_Some (connections w !! p)) ∧
  trace_of r
    = (if stub
       then if on_connection_closed (p2p w)
            then (λ p, Call_on_connection_closed p Disconnected) <$> peers
            else []
       else (λ p, Sdk_CloseConnection (close_options w p)) <$> peers).
Proof.
  intros Hi Hh r peers. subst r. rewrite disconnect_all_unfold.
  destruct (disconnect_loop stub w (map_to_list (connections w)).*1 w)
    as (Hp & _ & Ht); try done.
  fold peers in Hp, Ht.
  assert (∀ p, p ∈ peers ↔ p ≠ nullptr ∧ is_Some (connections w !! p)) as Hin.
  { intros p. subst peers. rewrite list_elem_of_filter, list_elem_of_fmap.
    split.
    - intros [Hne ([k c] & -> & Hkc)]. split; [done|].
      apply elem_of_map_to_list in Hkc. eauto.
    - intros [Hne [c Hc]]. split; [done|]. exists (p, c). split; [done|].
      by apply elem_of_map_to_list. }
  split; [|split; [|split; [|split; [done|done]]]].
  - intros p Hne. unfold connections at 1. rewrite Hp. simpl.
    rewrite foldl_delete_lookup. destruct (decide (p ∈ peers)) as [|Hnin]; [done|].
    destruct (m_connections (p2p w) !! p) eqn:Hl; [|done].
    exfalso. apply Hnin, Hin. split; [done|]. unfold connections. by rewrite Hl.
  - unfold connections at 1. rewrite Hp. simpl. rewrite foldl_delete_lookup.
    rewrite decide_False; [done|]. intros Hn. apply Hin in Hn as [? _]. done.
  - apply NoDup_filter, NoDup_fst_map_to_list.
Qed.

(** X3. [shutdown] on an initialised manager empties the connection
    table and clears [m_initialized]; configuration, queue and handler
    fields stay.  It never calls a handler: the peers that were connected
    get no connection-closed call.  The stub build calls nothing at all;
    the SDK build, with a live platform handle, asks the SDK once per
    peer to close the connection.  On a manager that is not initialised
    [shutdown] does nothing. *)
Theorem shutdown_clears (stub : bool) (w : World T) :
  let r := shutdown stub w in
  (m_initialized (p2p w) = false → r = (tt, w, [])) ∧
  (m_initialized (p2p w) = true →
     p2p (world_of r) = with_initialized false (with_connections (λ _, ∅) (p2p w)) ∧
     handler_calls (trace_of r) = [] ∧
     (stub = true → trace_of r = []) ∧
     (stub = false → is_Some (get_handle w) →
        trace_of r
          = (λ p, Sdk_CloseConnection (close_options w p))
              <$> filter (λ p, p ≠ nullptr) (map_to_list (connections w)).*1)).
Proof.
  intros r. subst r. split.
  - intros Hi. unfold shutdown. run. by rewrite Hi.
  - intros Hi. unfold shutdown, world_of, trace_of. run. rewrite Hi. simpl.
    destruct stub; simpl.
    + split; [by destruct (p2p w)|]. done.
    + rewrite disconnect_all_unfold.
      destruct (get_handle w) as [t|] eqn:Ht.
      * destruct (disconnect_loop false w (map_to_list (connections w)).*1 w)
          as (Hp & _ & Htr); try done; [right; by eexists|].
        destruct (for_each _ _ w) as [[[] w1] t1].
        unfold world_of, trace_of in *. simpl in *. rewrite !app_nil_r.
        split; [rewrite Hp; by destruct (p2p w)|].
        split; [|split; [done|by intros _ _]].
        rewrite Htr. generalize (filter (λ p, p ≠ nullptr)
                                   (map_to_list (connections w)).*1).
        intros l. induction l as [|x l IHl]; [done|].
        rewrite fmap_cons, handler_calls_cons. done.
      * assert (∀ l, for_each (disconnect_from_peer false) l w = (tt, w, []))
          as Hnoop.
        { induction l as [|x l IHl]; [done|]. simpl. unfold bind.
          assert (disconnect_from_peer false x w = (tt, w, [])) as ->.
          { unfold disconnect_from_peer. run. rewrite Hi. simpl.
            destruct (x =? nullptr); simpl; [done|]. by rewrite Ht. }
          by rewrite IHl. }
        rewrite Hnoop. simpl. split; [by destruct (p2p w)|].
        split; [done|]. split; [done|]. by intros _ [? ?].
Qed.

End InitializeAndShutdown.

Lemma initialize_succeeds_witness :
  let w := start_world {| m_logged_in := true; m_product_user_id := 305419896 |}
             (Some ([] : list IncomingPacket)) in
  let r := initialize false P2PConfig_default w in
  result_of r = true ∧
  p2p (world_of r) = with_initialized true (with_config P2PConfig_default (p2p w)).
Proof.
  intros w r.
  destruct (initialize_succeeds false w P2PConfig_default P2PConfig_default)
    as (Hr & Hp & _); [reflexivity|reflexivity|right; eauto|].
  split; [exact Hr|exact Hp].
Defined.

Lemma initialize_without_platform_witness :
  let config := {| socket_name := "Other"; allow_relay := false;
                   max_packet_size := 10; num_channels := 1 |} in
  m_config (p2p (world_of (initialize false config logged_in_world))) = config.
Proof.
  intros config.
  apply (initialize_without_platform logged_in_world config); reflexivity.
Defined.

Lemma disconnect_all_removes_every_peer_witness :
  let w := running_world {[7 := established_entry 7; 9 := connecting_entry 9]}
             [] [] in
  connections (world_of (disconnect_all true w)) !! 7 = None.
Proof.
  intros w.
  destruct (disconnect_all_removes_every_peer true w) as (H & _);
    [reflexivity|by left|].
  by apply H.
Defined.

Lemma shutdown_clears_witness :
  let w := running_world {[7 := established_entry 7; 9 := connecting_entry 9]}
             [] [] in
  p2p (world_of (shutdown true w))
    = with_initialized false (with_connections (λ _, ∅) (p2p w)) ∧
  trace_of (shutdown true w) = [].
Proof.
  intros w.
  destruct (shutdown_clears true w) as (_ & H).
  destruct H as (Hp & _ & Ht & _); [reflexivity|].
  split; [exact Hp|by apply Ht].
Defined.

Section Queries.
Context {T : Type} `{!EOS_SDK T}.

Lemma count_connected (l : list (N * PeerConnection)) :
  ∀ count,
    count + N.of_nat (length l) < 2 ^ 32 →
    foldl (λ count (kv : N * PeerConnection),
             if bool_decide (status kv.2 = Connected)
             then wrap32 (count + 1) else count) count l
      = count + N.of_nat (length (filter (λ kv, status kv.2 = Connected) l)).
Proof.
  induction l as [|kv l IH]; intros count Hb; [simpl; lia|].
  simpl foldl. rewrite filter_cons. simpl length in Hb.
  destruct (decide (status kv.2 = Connected)) as [Hc|Hc].
  - rewrite bool_decide_eq_true_2 by done.
    rewrite wrap32_small by lia. rewrite IH by lia. simpl length. lia.
  - rewrite bool_decide_eq_false_2 by done. rewrite IH by lia. done.
Qed.

(** X5. The three queries agree with each other.  With fewer than 2^32
    entries in the table, [get_peer_count] is the number of entries whose
    status is [Connected]: the number of ids for which [is_connected_to]
    answers true, and the number of [Connected] entries in the snapshot
    [get_all_connections], which holds every entry once.
    [is_connected_to] answers true exactly for the ids whose entry
    [get_peer_connection] reports as [Connected]. *)
Theorem queries_agree (w : World T) :
  N.of_nat (size (connections w)) < 2 ^ 32 →
  let count := result_of (get_peer_count w) in
  let all := result_of (get_all_connections w) in
  count = N.of_nat (length (connected_peers (connections w))) ∧
  count = N.of_nat (length (filter (λ c, status c = Connected) all)) ∧
  length all = size (connections w) ∧
  count ≤ N.of_nat (length all) ∧
  (∀ p, result_of (is_connected_to p w) = true ↔ p ∈ connected_peers (connections w)) ∧
  (∀ p, result_of (is_connected_to p w) = true ↔
        ∃ c, result_of (get_peer_connection p w) = Some c ∧ status c = Connected).
Proof.
  intros Hsz count all. subst count all.
  unfold get_peer_count, get_all_connections, is_connected_to,
    get_peer_connection, result_of, gets. simpl. fold (connections w).
  pose proof (length_map_to_list (connections w)) as Hlen.
  rewrite count_connected by (rewrite Hlen; lia). rewrite N.add_0_l.
  assert (∀ l : list (N * PeerConnection),
            length (filter (λ c, status c = Connected) l.*2)
            = length (filter (λ kv, status kv.2 = Connected) l)) as Hsnd.
  { induction l as [|kv l IH]; [done|]. rewrite fmap_cons, !filter_cons.
    destruct (decide (status kv.2 = Connected)); simpl; by rewrite IH. }
  split; [by unfold connected_peers; rewrite length_fmap|].
  split; [by rewrite Hsnd|].
  split; [by rewrite length_fmap|].
  split.
  { rewrite length_fmap.
    pose proof (length_filter (λ kv : N * PeerConnection, status kv.2 = Connected)
                  (map_to_list (connections w))). lia. }
  assert (∀ p, match connections w !! p with
               | Some c => bool_decide (status c = Connected)
               | None => false
               end = true
               ↔ ∃ c, connections w !! p = Some c ∧ status c = Connected) as Hq.
  { intros p. destruct (connections w !! p) as [c|]; split.
    - intros Hb. apply bool_decide_eq_true_1 in Hb. eauto.
    - intros (c' & [= <-] & Hst). by apply bool_decide_eq_true_2.
    - done.
    - by intros (c' & ? & _). }
  split; intros p; [|exact (Hq p)].
  rewrite elem_of_connected_peers. exact (Hq p).
Qed.

End Queries.

Lemma queries_agree_witness :
  let w := running_world {[7 := established_entry 7; 9 := connecting_entry 9;
                           11 := established_entry 11]} [] [] in
  result_of (get_peer_count w)
    = N.of_nat (length (connected_peers (connections w))) ∧
  length (result_of (get_all_connections w)) = size (connections w).
Proof.
  intros w. destruct (queries_agree w) as (H1 & _ & H3 & _); [reflexivity|].
  split; [exact H1|exact H3].
Defined.

Section RoundTrips.
Context {T : Type} `{!EOS_SDK T}.

(** X6. Connecting and then disconnecting a peer leaves no trace of it
    in the table: on an initialised manager (in the SDK build with a live
    platform handle), after [connect_to_peer(P)] and
    [disconnect_from_peer(P)] the peer has no entry and every other entry
    is as before, so a peer that had no entry leaves the table exactly as
    it was.  In the stub build the two calls call the
    connection-established handler and then the connection-closed
    handler, each once when registered. *)
Theorem connect_then_disconnect (stub : bool) (w : World T) peer :
  m_initialized (p2p w) = true → peer ≠ nullptr →
  stub = true ∨ is_Some (get_handle w) →
  let c := connect_to_peer stub peer w in
  let d := disconnect_from_peer stub peer (world_of c) in
  connections (world_of d) = delete peer (connections w) ∧
  (connections w !! peer = None → connections (world_of d) = connections w) ∧
  (stub = true →
     trace_of c ++ trace_of d
       = (if on_connection_established (p2p w)
          then [Call_on_connection_established peer Connected] else [])
         ++ (if on_connection_closed (p2p w)
             then [Call_on_connection_closed peer Disconnected] else [])).
Proof.
  intros Hi Hp Hh c d.
  destruct (connect_to_peer_frame stub w peer Hi Hp) as (Hc & _ & Hh' & Hs).
  simpl in Hc, Hh', Hs. fold c in Hc, Hh', Hs.
  apply same_settings in Hs as (Hi' & _ & _ & _ & Hcl & _).
  assert (connections (world_of d) = delete peer (connections w)) as Hd.
  { subst d. destruct stub.
    - rewrite disconnect_from_peer_stub by congruence.
      unfold world_of at 1, connections at 1. simpl.
      fold (connections (world_of c)). rewrite Hc. apply delete_insert_eq.
    - destruct Hh as [?|Hh]; [done|]. destruct (Hh' Hh) as [t Ht].
      rewrite disconnect_from_peer_sdk by congruence. rewrite Ht.
      unfold world_of at 1, connections at 1. simpl.
      fold (connections (world_of c)). rewrite Hc. apply delete_insert_eq. }
  split; [done|]. split; [intros Hn; rewrite Hd; by apply delete_id|].
  intros ->. subst d c. rewrite connect_to_peer_stub by done.
  rewrite connect_to_peer_stub in Hi', Hcl by done.
  rewrite disconnect_from_peer_stub by done.
  unfold trace_of, world_of. simpl. done.
Qed.

Lemma handle_connection_established_world (w : World T) peer :
  handle_connection_established peer w
    = (tt,
       set_p2p (with_connections
                  (insert peer (match connections w !! peer with
                                | Some entry => with_status Connected entry
                                | None => established_entry peer
                                end))) w,
       if on_connection_established (p2p w)
       then [Call_on_connection_established peer Connected] else []).
Proof.
  unfold handle_connection_established, connections. run.
  destruct (m_connections (p2p w) !! peer) eqn:Hl;
    destruct (on_connection_established (p2p w)); simpl;
    unfold set_p2p, with_connections; simpl; rewrite Hl; done.
Qed.

Lemma handle_connection_closed_world (w : World T) peer :
  handle_connection_closed peer w
    = (tt, set_p2p (with_connections (delete peer)) w,
       if on_connection_closed (p2p w)
       then [Call_on_connection_closed peer Disconnected] else []).
Proof.
  unfold handle_connection_closed. run.
  by destruct (on_connection_closed (p2p w)).
Qed.

(** X7. The two notifications compose in the same way: a
    connection-established notification followed by a connection-closed
    notification for the same peer leaves the table without that peer. A
    repeated connection-established notification leaves the table as the
    first one left it and calls the handler again.  For a peer that
    already has an entry the notification changes its status only: name,
    relay flag, ping and both byte counters are kept; for an unknown peer
    it stores a fresh [Connected] entry. *)
Theorem established_then_closed (w : World T) peer :
  let e := handle_connection_established peer w in
  let c := handle_connection_closed peer (world_of e) in
  let e2 := handle_connection_established peer (world_of e) in
  connections (world_of c) = delete peer (connections w) ∧
  connections (world_of e2) = connections (world_of e) ∧
  trace_of e2 = trace_of e ∧
  connections (world_of e) !! peer
    = Some (match connections w !! peer with
            | Some entry => with_status Connected entry
            | None => established_entry peer
            end) ∧
  (∀ p, p ≠ peer → connections (world_of e) !! p = connections w !! p).
Proof.
  intros e c e2. subst e c e2.
  rewrite (handle_connection_established_world w).
  unfold world_of at 1 2 3 4 5 6, trace_of.
  rewrite handle_connection_established_world, handle_connection_closed_world.
  unfold world_of, connections. simpl. rewrite !lookup_insert_eq. simpl.
  rewrite delete_insert_eq, insert_insert_eq.
  split; [done|]. split.
  { by destruct (m_connections (p2p w) !! peer). }
  split; [done|]. split; [done|].
  intros p Hne. by rewrite lookup_insert_ne.
Qed.

(** The head checks of [send_packet] do not read the connection table. *)
Lemma sendable_with_table (w : World T) m peer data size :
  sendable (with_table m w) peer data size ↔ sendable w peer data size.
Proof. done. Qed.

(** X8. [send_packet] never looks at the connection table to decide: its
    return value and the calls it makes are the same whatever the table
    holds - whether the peer is [Connected], [Connecting] or has no entry
    at all. *)
Theorem send_packet_ignores_registry (stub : bool) (w : World T)
    (m : gmap EOS_ProductUserId PeerConnection) peer data size chan rel :
  result_of (send_packet stub peer data size chan rel (with_table m w))
    = result_of (send_packet stub peer data size chan rel w) ∧
  trace_of (send_packet stub peer data size chan rel (with_table m w))
    = trace_of (send_packet stub peer data size chan rel w).
Proof.
  destruct (decide (sendable w peer data size)) as [Hok|Hno].
  - destruct stub.
    + rewrite (send_packet_stub w) by done.
      rewrite (send_packet_stub (with_table m w)) by exact Hok. done.
    + destruct (get_handle w) as [t|] eqn:Ht.
      * rewrite (send_packet_sdk w _ _ _ _ _ t) by done.
        rewrite (send_packet_sdk (with_table m w) _ _ _ _ _ t);
          [done|exact Hok|exact Ht].
      * rewrite (send_packet_sdk_no_platform w) by done.
        rewrite (send_packet_sdk_no_platform (with_table m w)) by exact Ht.
        done.
  - assert (m_initialized (p2p w) = false ∨ peer = nullptr ∨ data = None ∨
            size = 0 ∨ max_packet_size (m_config (p2p w)) < size) as Hrej.
    { unfold sendable in Hno.
      destruct (m_initialized (p2p w)); [|eauto].
      destruct (decide (peer = nullptr)); [eauto|].
      destruct data; [|eauto].
      destruct (decide (size = 0)); [eauto|].
      destruct (decide (size ≤ max_packet_size (m_config (p2p w)))).
      + exfalso. apply Hno. eauto 10.
      + right. right. right. right. lia. }
    rewrite (send_packet_rejects stub w) by done.
    rewrite (send_packet_rejects stub (with_table m w)) by exact Hrej. done.
Qed.

(** X9. In the SDK build a packet that passes the checks is handed to
    the SDK once; when the SDK does not answer [EOS_Success],
    [send_packet] returns false and the manager - the sent-byte counter
    included - is exactly as before. *)
Theorem send_packet_sdk_failure (w : World T) peer data size chan rel t :
  sendable w peer data size → get_handle w = Some t →
  let o := send_options w peer data size chan rel in
  (EOS_P2P_SendPacket t o).1 ≠ EOS_Success →
  let r := send_packet false peer data size chan rel w in
  result_of r = false ∧ p2p (world_of r) = p2p w ∧
  get_handle (world_of r) = Some (EOS_P2P_SendPacket t o).2 ∧
  trace_of r = [Sdk_SendPacket o].
Proof.
  intros Hok Ht o Hfail r. subst r.
  rewrite (send_packet_sdk _ _ _ _ _ _ t) by done. fold o.
  rewrite bool_decide_eq_false_2 by done. done.
Qed.

(** X14. [broadcast_packet] has no checks of its own; those of
    [send_packet] stop every single send.  On a manager that is not
    initialised, with a null buffer, an empty payload or one longer than
    [max_packet_size], a broadcast changes nothing and calls nothing,
    however many peers are connected. *)
Theorem broadcast_packet_rejected (stub : bool) (w : World T) data size chan rel :
  m_initialized (p2p w) = false ∨ data = None ∨ size = 0 ∨
  max_packet_size (m_config (p2p w)) < size →
  broadcast_packet stub data size chan rel w = (tt, w, []).
Proof.
  intros Hrej. unfold broadcast_packet. unfold bind at 1. unfold gets at 1.
  generalize (connected_peers (m_connections (p2p w))). intros l.
  assert (for_each (λ peer_id, send_packet stub peer_id data size chan rel
                                 >> ret tt) l w = (tt, w, [])) as ->; [|done].
  induction l as [|x l IH]; [done|]. simpl. unfold bind at 1. unfold bind at 1.
  rewrite send_packet_rejects by tauto. simpl. by rewrite IH.
Qed.

End RoundTrips.

Lemma connect_then_disconnect_witness :
  let w := running_world {[9 := connecting_entry 9]} [] [] in
  connections (world_of (disconnect_from_peer false 7
                           (world_of (connect_to_peer false 7 w))))
    = connections w.
Proof.
  intros w.
  destruct (connect_then_disconnect false w 7) as (_ & H & _);
    [reflexivity|done|right; eauto|].
  apply H. reflexivity.
Defined.

Lemma send_packet_sdk_failure_witness :
  let r := @send_packet false unit refusing_sdk 7 (Some [x41]) 1 0
             ReliableOrdered refused_world in
  result_of r = false ∧ p2p (world_of r) = p2p refused_world.
Proof.
  intros r.
  destruct (@send_packet_sdk_failure unit refusing_sdk refused_world 7
              (Some [x41]) 1 0 ReliableOrdered tt) as (Hr & Hp & _).
  - split; [reflexivity|]. split; [done|]. split; [eauto|]. split; done.
  - reflexivity.
  - done.
  - split; [exact Hr|exact Hp].
Defined.

Lemma broadcast_packet_rejected_witness :
  let w := running_world {[7 := established_entry 7]} [] [] in
  broadcast_packet false (Some (replicate 1171 x00)) 1171 0 UnreliableUnordered w
    = (tt, w, []).
Proof.
  intros w. apply (broadcast_packet_rejected false w). right. right. right.
  reflexivity.
Defined.

Section ReceiveDetails.
Context {T : Type} `{!EOS_SDK T}.




Lemma transport_calls_cons e tr :
  transport_calls (e :: tr)
    = if is_transport_call e then e :: transport_calls tr else transport_calls tr.
Proof.
  unfold transport_calls. rewrite filter_cons.
  destruct (is_transport_call e); [by rewrite decide_True|by rewrite decide_False].
Qed.

Lemma receive_loop_sdk_calls (budget : nat) :
  ∀ (t : T) (packets_received : N) (w : World T),
    let r := receive_loop_sdk budget t packets_received w in
    let taken := length (sdk_polled budget t (get_product_user_id (auth w))) in
    let calls := length (transport_calls (trace_of r)) in
    (2 * taken ≤ calls ≤ 2 * taken + 2)%nat ∧ (calls ≤ 2 * budget)%nat.
Proof.
  induction budget as [|budget IH]; intros t pr w r taken calls.
  - subst r taken calls. simpl. lia.
  - subst r taken calls. simpl. run.
    destruct (EOS_P2P_GetNextReceivedPacketSize t (get_product_user_id (auth w)))
      as [[res size] t1] eqn:Hsize. run.
    destruct (bool_decide (res = EOS_Success)); simpl.
    2:{ unfold trace_of. simpl. lia. }
    destruct (EOS_P2P_ReceivePacket t1 _) as [rp t2] eqn:Hrecv. run.
    destruct (bool_decide (rp_result rp = EOS_Success)); simpl.
    2:{ unfold trace_of. simpl. lia. }
    set (w1 := set_p2p (with_connections
                 (alter (add_bytes_received (wrap32 (rp_bytes_received rp)))
                    (rp_sender rp)))
                 (set_handle (Some t2) (set_handle (Some t1) w))).
    specialize (IH t2 (wrap32 (pr + 1)) w1). simpl in IH.
    change (get_product_user_id (auth w1)) with (get_product_user_id (auth w)) in IH.
    destruct (on_packet_received (p2p w)) eqn:Hcb; simpl;
      fold w1;
      destruct (receive_loop_sdk budget t2 (wrap32 (pr + 1)) w1) as [[n w2] tr];
      unfold trace_of, transport_calls in *; simpl in *;
      rewrite ?filter_cons_False by done; lia.
Qed.

(** X11. [receive_packets] polls the SDK a bounded number of times: the
    SDK build makes two calls for every packet it takes and at most two
    more, never more than twice [max_packets] in all.  With
    [max_packets = 0], in either build, and with a null platform handle
    in the SDK build, it returns 0, changes nothing and calls nothing. *)
Theorem receive_packets_polls_bounded (w : World T) (max_packets : N) :
  let r := receive_packets false max_packets w in
  let taken := N.to_nat (result_of r) in
  let calls := length (transport_calls (trace_of r)) in
  (max_packets < 2 ^ 32 → (2 * taken ≤ calls ≤ 2 * taken + 2)%nat) ∧
  (calls ≤ 2 * N.to_nat max_packets)%nat ∧
  (get_handle w = None → r = (0, w, [])) ∧
  (∀ stub, receive_packets stub 0 w = (0, w, [])).
Proof.
  intros r taken calls. subst r taken calls.
  assert (∀ stub, receive_packets stub 0 w = (0, w, [])) as Hzero.
  { intros stub. unfold receive_packets. run.
    destruct (m_initialized (p2p w)); simpl; [|done].
    destruct stub; simpl.
    - by destruct (m_incoming_packets (p2p w)).
    - by destruct (get_handle w). }
  split; [|split; [|split; [|done]]].
  - intros Hmax. destruct (m_initialized (p2p w)) eqn:Hi.
    + destruct (receive_packets_spec false w max_packets Hi Hmax) as (Hr & _).
      rewrite Hr, Nat2N.id. clear Hr.
      unfold receive_packets, drained. run. rewrite Hi. simpl.
      destruct (get_handle w) as [t|] eqn:Ht; simpl.
      * pose proof (receive_loop_sdk_calls (N.to_nat max_packets) t 0 w) as Hl.
        simpl in Hl.
        destruct (receive_loop_sdk (N.to_nat max_packets) t 0 w) as [[n w2] tr].
        unfold trace_of in *. simpl in *. lia.
      * unfold trace_of. simpl. lia.
    + unfold receive_packets, result_of, trace_of. run. rewrite Hi. simpl. lia.
  - unfold receive_packets. run.
    destruct (m_initialized (p2p w)); simpl; [|unfold trace_of; simpl; lia].
    destruct (get_handle w) as [t|] eqn:Ht; simpl; [|unfold trace_of; simpl; lia].
    pose proof (receive_loop_sdk_calls (N.to_nat max_packets) t 0 w) as Hl.
    simpl in Hl.
    destruct (receive_loop_sdk (N.to_nat max_packets) t 0 w) as [[n w2] tr].
    unfold trace_of in *. simpl in *. lia.
  - intros Hn. unfold receive_packets. run.
    destruct (m_initialized (p2p w)); simpl; [|done]. by rewrite Hn.
Qed.

End ReceiveDetails.

Section Buffers.
Local Open Scope N_scope.

Lemma vector_resize_lookup (n : nat) (v : list byte) (i : nat) :
  (i < n)%nat → vector_resize n v !! i = Some (default x00 (v !! i)).
Proof.
  intros Hi. unfold vector_resize.
  destruct (decide (i < length v)%nat) as [Hlt|Hge].
  - rewrite lookup_app_l by (rewrite length_take; lia).
    rewrite lookup_take_lt by done.
    destruct (lookup_lt_is_Some_2 v i Hlt) as [x ->]. done.
  - rewrite lookup_app_r by (rewrite length_take; lia).
    rewrite length_take, lookup_replicate_2 by lia.
    rewrite (lookup_ge_None_2 v i) by lia. done.
Qed.

Lemma vector_resize_exact (n : nat) (v : list byte) :
  (n ≤ length v)%nat → vector_resize n v = take n v.
Proof.
  intros Hn. unfold vector_resize.
  replace (n - length v)%nat with 0%nat by lia. apply app_nil_r.
Qed.

(** X12. The packet [receive_packets] builds in the SDK build has as
    many data bytes as the SDK reported received (a [uint32_t]).  Byte
    [i] is what the SDK wrote at [i] when [i] lies inside the buffer of
    [packet_size] bytes offered to the SDK and the SDK wrote that far,
    and a zero byte otherwise: nothing written beyond the offered size is
    ever handed on.  When the SDK wrote at most [packet_size] bytes and
    there are at least as many as it reports, the data is the first
    reported bytes of what it wrote. *)
Theorem received_packet_data (packet_size : N) (rp : ReceivedPacket) :
  let packet := received_packet packet_size rp in
  let received := N.to_nat (wrap32 (rp_bytes_received rp)) in
  length (data packet) = received ∧
  sender packet = rp_sender rp ∧ channel packet = rp_channel rp mod 2 ^ 8 ∧
  (∀ i, (i < received)%nat →
        data packet !! i
          = Some (if decide (i < N.to_nat packet_size)%nat
                  then default x00 (rp_written rp !! i) else x00)) ∧
  ((received ≤ length (rp_written rp))%nat →
   (length (rp_written rp) ≤ N.to_nat packet_size)%nat →
   data packet = take received (rp_written rp)).
Proof.
  intros packet received. subst packet received. simpl.
  split; [apply length_vector_resize|]. split; [done|]. split; [done|]. split.
  - intros i Hi. rewrite vector_resize_lookup by done.
    destruct (decide (i < N.to_nat packet_size)%nat) as [Hlt|Hge].
    + rewrite vector_resize_lookup by done. simpl.
      by rewrite lookup_take_lt.
    + rewrite (lookup_ge_None_2 (vector_resize _ _)); [done|].
      rewrite length_vector_resize. lia.
  - intros Hr Hw.
    rewrite (take_ge (rp_written rp)) by done.
    rewrite vector_resize_exact by (rewrite length_vector_resize; lia).
    unfold vector_resize. rewrite take_app_le by (rewrite length_take; lia).
    rewrite take_take. f_equal. lia.
Qed.

End Buffers.

Section SocketName.

(** X13. The socket name handed to the SDK is copied with [strncpy] into
    a zero-filled field: the copy is a prefix of the configured name, at
    most [n] characters long and free of NUL characters.  A name without
    NUL that fits is copied whole; of a longer one only the first [n]
    characters count, so two names that agree on them give the same
    socket. *)
Theorem strncpy_copies_prefix (n : nat) (name : string) :
  (String.length (strncpy n name) ≤ n)%nat ∧
  has_nul (strncpy n name) = false ∧
  (∃ rest, name = String.append (strncpy n name) rest) ∧
  (has_nul name = false → (String.length name ≤ n)%nat → strncpy n name = name) ∧
  (∀ more, has_nul name = false → String.length name = n →
           strncpy n (String.append name more) = name).
Proof.
  revert name. induction n as [|n IH]; intros name.
  - simpl. split; [done|]. split; [done|]. split; [by exists name|].
    split.
    + intros _ Hl. destruct name; [done|]. simpl in Hl. lia.
    + intros more _ Hl. destruct name; [done|]. simpl in Hl. lia.
  - destruct name as [|c name]; simpl.
    + split; [lia|]. split; [done|]. split; [by exists EmptyString|].
      split; [done|]. intros more _ Hl. lia.
    + destruct (IH name) as (Hlen & Hnul & [rest Hrest] & Hfit & Hcut).
      destruct (Ascii.eqb c Ascii.zero) eqn:Hc; simpl.
      * split; [lia|]. split; [done|].
        split; [by exists (String c name)|]. split; [done|]. done.
      * rewrite Hc. simpl. split; [lia|]. split; [done|]. split.
        { exists rest. rewrite Hrest at 1. reflexivity. }
        split.
        { intros Hn Hl. rewrite Hfit; [done|done|lia]. }
        { intros more Hn Hl. rewrite Hcut; [done|done|lia]. }
Qed.

End SocketName.

Lemma strncpy_copies_prefix_witness :
  strncpy 4 (String.append "Game" "Socket") = "Game"%string.
Proof.
  apply (strncpy_copies_prefix 4 "Game"); reflexivity.
Defined.

Section ManagerUpdates.
Context {T : Type} `{!EOS_SDK T}.
Context (stub lc : bool) (ok : EOS_ProductUserId → Prop).

Local Abbreviation steps := (rtc (manager_update stub lc ok)).

Lemma with_connections_eq (m m' : P2PManager) :
  with_connections (λ _, ∅) m' = with_connections (λ _, ∅) m →
  m' = with_connections (λ _, m_connections m') m.
Proof.
  destruct m, m'. unfold with_connections. simpl.
  by intros [= -> -> -> -> -> ->].
Qed.

Lemma send_packet_manager (w : World T) peer data size chan rel :
  let w' := world_of (send_packet stub peer data size chan rel w) in
  p2p w' = p2p w ∨
  (m_initialized (p2p w) = true ∧
   p2p w' = with_connections (alter (add_bytes_sent size) peer) (p2p w)).
Proof.
  intros w'. subst w'.
  destruct (decide (sendable w peer data size)) as [Hok|Hno].
  - assert (m_initialized (p2p w) = true) as Hi by apply Hok.
    destruct stub.
    + rewrite send_packet_stub by done. by right.
    + destruct (get_handle w) as [t|] eqn:Ht.
      * rewrite (send_packet_sdk _ _ _ _ _ _ t) by done. unfold world_of. simpl.
        destruct (bool_decide _); [by right|by left].
      * rewrite send_packet_sdk_no_platform by done. by left.
  - destruct (send_packet_frame stub w peer data size chan rel)
      as (_ & _ & Hc & Hs).
    destruct (m_initialized (p2p w)) eqn:Hi.
    + destruct Hc as [Hc|Hc].
      * left. apply with_connections_eq in Hs. rewrite Hs.
        unfold connections in Hc. rewrite Hc. by destruct (p2p w).
      * right. split; [done|]. apply with_connections_eq in Hs. rewrite Hs.
        unfold connections in Hc. rewrite Hc. by destruct (p2p w).
    + left. rewrite send_packet_rejects; [done|]. by left.
Qed.

Lemma send_packet_steps (w : World T) peer data size chan rel :
  steps (p2p w) (p2p (world_of (send_packet stub peer data size chan rel w))).
Proof.
  destruct (send_packet_manager w peer data size chan rel) as [->|[Hi ->]].
  - constructor.
  - apply rtc_once. by constructor.
Qed.

Lemma for_each_steps {A} (f : A → Op T unit) (l : list A) :
  (∀ x w, steps (p2p w) (p2p (world_of (f x w)))) →
  ∀ w, steps (p2p w) (p2p (world_of (for_each f l w))).
Proof.
  intros Hf. induction l as [|x l IH]; intros w; [constructor|].
  simpl. unfold bind. specialize (Hf x w).
  destruct (f x w) as [[[] w1] t1]. specialize (IH w1).
  destruct (for_each f l w1) as [[[] w2] t2]. unfold world_of in *. simpl in *.
  by etrans.
Qed.

Lemma bind_ret_steps {A} (m : Op T A) (w : World T) :
  world_of ((m >> ret tt) w) = world_of (m w).
Proof. unfold bind, ret, world_of. by destruct (m w) as [[? ?] ?]. Qed.

Lemma broadcast_packet_steps (w : World T) data size chan rel :
  steps (p2p w) (p2p (world_of (broadcast_packet stub data size chan rel w))).
Proof.
  unfold broadcast_packet. unfold bind at 1. unfold gets at 1.
  assert (∀ x w0, steps (p2p w0)
            (p2p (world_of ((send_packet stub x data size chan rel >> ret tt) w0))))
    as Hf.
  { intros x w0. rewrite bind_ret_steps. apply send_packet_steps. }
  pose proof (for_each_steps
                (λ peer_id, send_packet stub peer_id data size chan rel >> ret tt)
                (connected_peers (m_connections (p2p w))) Hf w) as Hl.
  destruct (for_each _ (connected_peers (m_connections (p2p w))) w)
    as [[[] w1] t1] eqn:Hloop.
  done.
Qed.

Lemma connect_to_peer_steps (w : World T) peer :
  steps (p2p w) (p2p (world_of (connect_to_peer stub peer w))).
Proof.
  destruct (m_initialized (p2p w)) eqn:Hi.
  2:{ unfold connect_to_peer, world_of. run. rewrite Hi. constructor. }
  destruct (decide (peer = nullptr)) as [->|Hp].
  { unfold connect_to_peer, world_of. run. rewrite Hi. constructor. }
  destruct stub eqn:Hstub.
  - rewrite connect_to_peer_stub by done. unfold world_of. simpl.
    apply rtc_once. by apply (mu_connect true lc).
  - rewrite connect_to_peer_sdk by done. simpl. unfold world_of at 1. simpl.
    pose proof (send_packet_steps w peer (Some hello) 1 0 ReliableOrdered) as Hs.
    rewrite Hstub in Hs.
    destruct (send_packet_frame false w peer (Some hello) 1 0 ReliableOrdered)
      as (_ & _ & _ & Hset).
    apply same_settings in Hset as (Hi1 & _).
    eapply rtc_r; [exact Hs|].
    apply (mu_connect false lc); [|done]. unfold world_of in Hi1. congruence.
Qed.

Lemma disconnect_from_peer_steps (w : World T) peer :
  steps (p2p w) (p2p (world_of (disconnect_from_peer stub peer w))).
Proof.
  destruct (m_initialized (p2p w)) eqn:Hi.
  2:{ unfold disconnect_from_peer, world_of. run. rewrite Hi. constructor. }
  destruct (decide (peer = nullptr)) as [->|Hp].
  { unfold disconnect_from_peer, world_of. run. rewrite Hi. constructor. }
  destruct stub.
  - rewrite disconnect_from_peer_stub by done. unfold world_of. simpl.
    apply rtc_once. by constructor.
  - rewrite disconnect_from_peer_sdk by done.
    destruct (get_handle w); unfold world_of; simpl; [|constructor].
    apply rtc_once. by constructor.
Qed.

Lemma disconnect_all_steps (w : World T) :
  steps (p2p w) (p2p (world_of (disconnect_all stub w))).
Proof.
  rewrite disconnect_all_unfold.
  apply for_each_steps. intros x w0. apply disconnect_from_peer_steps.
Qed.

Lemma for_each_settings {A} (f : A → Op T unit) (l : list A) :
  (∀ x w, with_connections (λ _, ∅) (p2p (world_of (f x w)))
          = with_connections (λ _, ∅) (p2p w)) →
  ∀ w, with_connections (λ _, ∅) (p2p (world_of (for_each f l w)))
       = with_connections (λ _, ∅) (p2p w).
Proof.
  intros Hf. induction l as [|x l IH]; intros w; [done|].
  simpl. unfold bind. specialize (Hf x w).
  destruct (f x w) as [[[] w1] t1]. specialize (IH w1).
  destruct (for_each f l w1) as [[[] w2] t2]. unfold world_of in *. simpl in *.
  congruence.
Qed.

Lemma disconnect_all_settings (w : World T) :
  with_connections (λ _, ∅) (p2p (world_of (disconnect_all stub w)))
    = with_connections (λ _, ∅) (p2p w).
Proof.
  rewrite disconnect_all_unfold. apply for_each_settings. intros x w0.
  destruct (m_initialized (p2p w0)) eqn:Hi.
  2:{ unfold disconnect_from_peer, world_of. run. by rewrite Hi. }
  destruct (decide (x = nullptr)) as [->|Hp].
  { unfold disconnect_from_peer, world_of. run. by rewrite Hi. }
  destruct stub.
  - rewrite disconnect_from_peer_stub by done. unfold world_of. simpl.
    by destruct (p2p w0).
  - rewrite disconnect_from_peer_sdk by done.
    destruct (get_handle w0); unfold world_of; simpl; [|done].
    by destruct (p2p w0).
Qed.

Lemma shutdown_steps (w : World T) :
  lc = true →
  steps (p2p w) (p2p (world_of (shutdown stub w))).
Proof.
  intros Hlc. unfold shutdown, world_of. run.
  destruct (m_initialized (p2p w)) eqn:Hi; simpl; [|constructor].
  destruct stub eqn:Hstub; simpl.
  - apply rtc_once. by apply (mu_shutdown true lc).
  - pose proof (disconnect_all_steps w) as Hs.
    pose proof (disconnect_all_settings w) as Hset.
    rewrite Hstub in Hs, Hset.
    apply same_settings in Hset as (Hi1 & _).
    destruct (disconnect_all false w) as [[[] w1] t1].
    unfold world_of in *. simpl in *.
    eapply rtc_r; [exact Hs|].
    apply (mu_shutdown false lc); [done|]. congruence.
Qed.

Lemma initialize_steps (w : World T) config :
  lc = true →
  steps (p2p w) (p2p (world_of (initialize stub config w))).
Proof.
  intros Hlc. unfold initialize, world_of. run.
  destruct (m_initialized (p2p w)) eqn:Hi; simpl; [constructor|].
  destruct (negb (is_logged_in (auth w))); simpl; [constructor|].
  assert (manager_update stub lc ok (p2p w) (with_config config (p2p w))) as H1
    by (by constructor).
  assert (manager_update stub lc ok (with_config config (p2p w))
            (with_initialized true (with_config config (p2p w)))) as H2
    by (by constructor).
  destruct stub; simpl.
  - eapply rtc_l; [exact H1|]. by apply rtc_once.
  - destruct (get_handle w) eqn:Ht; simpl.
    + unfold register_callbacks. run. rewrite Ht. simpl.
      eapply rtc_l; [exact H1|]. by apply rtc_once.
    + by apply rtc_once.
Qed.

Lemma receive_loop_stub_steps (q : list IncomingPacket) :
  ∀ (max_packets packets_received : N) (w : World T),
    m_initialized (p2p w) = true → m_incoming_packets (p2p w) = q →
    steps (p2p w)
      (p2p (world_of (receive_loop_stub q max_packets packets_received w))).
Proof.
  induction q as [|packet rest IH]; intros max_packets pr w Hi Hq;
    [constructor|].
  simpl. destruct (pr <? max_packets); [|constructor].
  specialize (IH max_packets (wrap32 (pr + 1))
                (set_p2p (with_incoming_packets rest) w) Hi eq_refl).
  eapply rtc_l; [by apply (mu_pop stub lc ok (p2p w) packet rest)|].
  run. destruct (on_packet_received (p2p w)); simpl;
    destruct (receive_loop_stub rest max_packets (wrap32 (pr + 1)) _)
      as [[n w2] t2]; exact IH.
Qed.

Lemma receive_loop_sdk_steps (budget : nat) :
  ∀ (t : T) (packets_received : N) (w : World T),
    m_initialized (p2p w) = true →
    steps (p2p w) (p2p (world_of (receive_loop_sdk budget t packets_received w))).
Proof.
  induction budget as [|budget IH]; intros t pr w Hi; [constructor|].
  simpl. run.
  destruct (EOS_P2P_GetNextReceivedPacketSize t (get_product_user_id (auth w)))
    as [[res size] t1]. run.
  destruct (bool_decide (res = EOS_Success)); simpl; [|constructor].
  destruct (EOS_P2P_ReceivePacket t1 _) as [rp t2]. run.
  destruct (bool_decide (rp_result rp = EOS_Success)); simpl; [|constructor].
  set (w1 := set_p2p (with_connections
               (alter (add_bytes_received (wrap32 (rp_bytes_received rp)))
                  (rp_sender rp)))
               (set_handle (Some t2) (set_handle (Some t1) w))).
  specialize (IH t2 (wrap32 (pr + 1)) w1 Hi).
  eapply rtc_l.
  { apply (mu_received stub lc ok (p2p w) (rp_sender rp)
             (wrap32 (rp_bytes_received rp))). done. }
  destruct (on_packet_received (p2p w)); simpl; fold w1;
    destruct (receive_loop_sdk budget t2 (wrap32 (pr + 1)) w1) as [[n w2] t3];
    exact IH.
Qed.

Lemma receive_packets_steps (w : World T) max_packets :
  steps (p2p w) (p2p (world_of (receive_packets stub max_packets w))).
Proof.
  unfold receive_packets. run.
  destruct (m_initialized (p2p w)) eqn:Hi; simpl; [|constructor].
  destruct stub eqn:Hstub; simpl.
  - pose proof (receive_loop_stub_steps (m_incoming_packets (p2p w))
                  max_packets 0 w Hi eq_refl) as Hs.
    rewrite Hstub in Hs.
    by destruct (receive_loop_stub _ max_packets 0 w) as [[n w2] t2].
  - destruct (get_handle w) as [t|]; simpl; [|constructor].
    pose proof (receive_loop_sdk_steps (N.to_nat max_packets) t 0 w Hi) as Hs.
    rewrite Hstub in Hs.
    by destruct (receive_loop_sdk _ t 0 w) as [[n w2] t2].
Qed.

Lemma handle_connection_established_steps (w : World T) peer :
  ok peer →
  steps (p2p w) (p2p (world_of (handle_connection_established peer w))).
Proof.
  intros Hok. rewrite handle_connection_established_world.
  unfold world_of, connections. simpl. apply rtc_once.
  destruct (m_connections (p2p w) !! peer) as [c|] eqn:Hl.
  - by apply mu_established_known.
  - by apply mu_established_new.
Qed.

(** Every call changes the manager by elementary updates only. *)
Lemma perform_steps (c : Call T) (w : World T) :
  notifies_only ok c → lifecycle_only lc c →
  steps (p2p w) (p2p (world_of (perform stub c w))).
Proof.
  intros Hok Hlc.
  destruct c as [config| |p|p|p| |p data size chan rel|data size chan rel|n
                |e cl pk|p|p|p|a|h]; simpl perform.
  - rewrite bind_ret_steps. by apply initialize_steps.
  - by apply shutdown_steps.
  - destruct (accept_connections_spec stub w p) as (-> & _). constructor.
  - apply connect_to_peer_steps.
  - apply disconnect_from_peer_steps.
  - apply disconnect_all_steps.
  - rewrite bind_ret_steps. apply send_packet_steps.
  - apply broadcast_packet_steps.
  - rewrite bind_ret_steps. apply receive_packets_steps.
  - apply rtc_once. apply mu_handlers.
  - unfold handle_connection_request.
    destruct (accept_connections_spec stub w p) as (-> & _). constructor.
  - by apply handle_connection_established_steps.
  - rewrite handle_connection_closed_world. apply rtc_once. apply mu_closed.
  - constructor.
  - constructor.
Qed.

Lemma run_calls_steps (cs : list (Call T)) :
  ∀ w, Forall (notifies_only ok) cs → Forall (lifecycle_only lc) cs →
       steps (p2p w) (p2p (world_of (run_calls stub cs w))).
Proof.
  induction cs as [|c cs IH]; intros w Hok Hlc; [constructor|].
  apply Forall_cons in Hok as [Hc Hcs]. apply Forall_cons in Hlc as [Hl Hls].
  unfold run_calls. simpl. unfold bind.
  pose proof (perform_steps c w Hc Hl) as H1.
  destruct (perform stub c w) as [[[] w1] t1].
  specialize (IH w1 Hcs Hls). unfold run_calls in IH.
  destruct (for_each (perform stub) cs w1) as [[[] w2] t2].
  unfold world_of in *. simpl in *. by etrans.
Qed.

End ManagerUpdates.

Section Invariants.
Context {T : Type} `{!EOS_SDK T}.

Lemma notifies_only_any (cs : list (Call T)) :
  Forall (notifies_only (λ _, True)) cs.
Proof. apply Forall_forall. intros c _. by destruct c. Qed.

Lemma lifecycle_only_any (cs : list (Call T)) :
  Forall (lifecycle_only true) cs.
Proof. apply Forall_forall. intros c _. by destruct c. Qed.

Lemma update_well_keyed stub lc ok (m m' : P2PManager) :
  manager_update stub lc ok m m' →
  well_keyed (m_connections m) → well_keyed (m_connections m').
Proof.
  intros Hu Hm. destruct Hu; simpl; try done; intros q e.
  - destruct (decide (p = q)) as [->|Hne].
    + rewrite lookup_insert_eq. intros [= <-]. by destruct stub.
    + rewrite lookup_insert_ne by done. apply Hm.
  - destruct (decide (p = q)) as [->|Hne].
    + by rewrite lookup_delete_eq.
    + rewrite lookup_delete_ne by done. apply Hm.
  - destruct (decide (p = q)) as [->|Hne].
    + rewrite lookup_alter_eq. destruct (m_connections m !! q) as [c|] eqn:Hl;
        [|done]. simpl. intros [= <-]. simpl. by apply Hm.
    + rewrite lookup_alter_ne by done. apply Hm.
  - destruct (decide (p = q)) as [->|Hne].
    + rewrite lookup_alter_eq. destruct (m_connections m !! q) as [c|] eqn:Hl;
        [|done]. simpl. intros [= <-]. simpl. by apply Hm.
    + rewrite lookup_alter_ne by done. apply Hm.
  - destruct (decide (p = q)) as [->|Hne].
    + rewrite lookup_insert_eq. intros [= <-]. simpl. by apply Hm.
    + rewrite lookup_insert_ne by done. apply Hm.
  - destruct (decide (p = q)) as [->|Hne].
    + rewrite lookup_insert_eq. by intros [= <-].
    + rewrite lookup_insert_ne by done. apply Hm.
  - destruct (decide (p = q)) as [->|Hne].
    + by rewrite lookup_delete_eq.
    + rewrite lookup_delete_ne by done. apply Hm.
Qed.

(** X15. Every entry of the connection table is stored under the id it
    records in [peer_id]: no sequence of calls, handler assignments and
    notifications breaks this, and it holds from a manager as
    constructed. *)
Theorem registry_well_keyed (stub : bool) (cs : list (Call T)) (w : World T)
    (a : AuthManager) (h : option T) :
  (well_keyed (connections w) →
   well_keyed (connections (world_of (run_calls stub cs w)))) ∧
  well_keyed (connections (world_of (run_calls stub cs (start_world a h)))).
Proof.
  assert (∀ w0 : World T, well_keyed (connections w0) →
            well_keyed (connections (world_of (run_calls stub cs w0)))) as Hpres.
  { intros w0 Hw0.
    pose proof (run_calls_steps stub true (λ _, True) cs w0 (notifies_only_any cs)
                  (lifecycle_only_any cs)) as Hs.
    unfold connections in *.
    induction Hs as [|m1 m2 m3 Hu _ IH]; [done|].
    apply IH. by eapply update_well_keyed. }
  split; [apply Hpres|]. apply Hpres. intros p c. unfold connections. simpl.
  by rewrite lookup_empty.
Qed.

Lemma update_all_live stub lc ok (m m' : P2PManager) :
  manager_update stub lc ok m m' →
  all_live stub (m_connections m) → all_live stub (m_connections m').
Proof.
  intros Hu Hm. destruct Hu; simpl; try done; intros q e.
  - destruct (decide (p = q)) as [->|Hne].
    + rewrite lookup_insert_eq. intros [= <-]. unfold live_status.
      destruct stub; simpl; eauto.
    + rewrite lookup_insert_ne by done. apply Hm.
  - destruct (decide (p = q)) as [->|Hne].
    + by rewrite lookup_delete_eq.
    + rewrite lookup_delete_ne by done. apply Hm.
  - destruct (decide (p = q)) as [->|Hne].
    + rewrite lookup_alter_eq. destruct (m_connections m !! q) as [c|] eqn:Hl;
        [|done]. simpl. intros [= <-]. simpl. by apply (Hm q).
    + rewrite lookup_alter_ne by done. apply Hm.
  - destruct (decide (p = q)) as [->|Hne].
    + rewrite lookup_alter_eq. destruct (m_connections m !! q) as [c|] eqn:Hl;
        [|done]. simpl. intros [= <-]. simpl. by apply (Hm q).
    + rewrite lookup_alter_ne by done. apply Hm.
  - destruct (decide (p = q)) as [->|Hne].
    + rewrite lookup_insert_eq. intros [= <-]. by left.
    + rewrite lookup_insert_ne by done. apply Hm.
  - destruct (decide (p = q)) as [->|Hne].
    + rewrite lookup_insert_eq. intros [= <-]. by left.
    + rewrite lookup_insert_ne by done. apply Hm.
  - destruct (decide (p = q)) as [->|Hne].
    + by rewrite lookup_delete_eq.
    + rewrite lookup_delete_ne by done. apply Hm.
Qed.

(** X16. The code gives an entry only two states: [Connecting] and
    [Connected].  After any sequence of calls, handler assignments and
    notifications on a manager as constructed no entry is [Disconnected]
    or [ConnectionFailed]; in the stub build every entry is [Connected],
    so there [is_connected_to] answers true exactly for the ids that have
    an entry. *)
Theorem entries_are_live (stub : bool) (cs : list (Call T)) (w : World T)
    (a : AuthManager) (h : option T) :
  let w' := world_of (run_calls stub cs (start_world a h)) in
  (all_live stub (connections w) →
   all_live stub (connections (world_of (run_calls stub cs w)))) ∧
  (∀ p c, connections w' !! p = Some c →
          status c ≠ Disconnected ∧ status c ≠ ConnectionFailed) ∧
  (stub = true →
   ∀ p, result_of (is_connected_to p w') = true ↔ is_Some (connections w' !! p)).
Proof.
  intros w'.
  assert (∀ w0 : World T, all_live stub (connections w0) →
            all_live stub (connections (world_of (run_calls stub cs w0)))) as Hpres.
  { intros w0 Hw0.
    pose proof (run_calls_steps stub true (λ _, True) cs w0 (notifies_only_any cs)
                  (lifecycle_only_any cs)) as Hs.
    unfold connections in *.
    induction Hs as [|m1 m2 m3 Hu _ IH]; [done|].
    apply IH. by eapply update_all_live. }
  assert (all_live stub (connections w')) as Hlive.
  { apply Hpres. intros p c. unfold connections. simpl.
    by rewrite lookup_empty. }
  split; [apply Hpres|]. split.
  - intros p c Hc. destruct (Hlive p c Hc) as [->|[_ ->]]; done.
  - intros -> p. unfold is_connected_to, result_of, gets. simpl.
    fold (connections w').
    destruct (connections w' !! p) as [c|] eqn:Hc.
    + destruct (Hlive p c Hc) as [->|[? _]]; [|done].
      split; [eauto|done].
    + split; [done|]. by intros [? ?].
Qed.

Lemma update_no_null stub lc (m m' : P2PManager) :
  manager_update stub lc (λ p, p ≠ nullptr) m m' →
  m_connections m !! nullptr = None → m_connections m' !! nullptr = None.
Proof.
  intros Hu Hm. destruct Hu; simpl; try done.
  - by rewrite lookup_insert_ne.
  - destruct (decide (p = nullptr)) as [->|Hne].
    + by rewrite lookup_delete_eq.
    + by rewrite lookup_delete_ne.
  - destruct (decide (p = nullptr)) as [->|Hne].
    + by rewrite lookup_alter_eq, Hm.
    + by rewrite lookup_alter_ne.
  - destruct (decide (p = nullptr)) as [->|Hne].
    + by rewrite lookup_alter_eq, Hm.
    + by rewrite lookup_alter_ne.
  - by rewrite lookup_insert_ne.
  - by rewrite lookup_insert_ne.
  - destruct (decide (p = nullptr)) as [->|Hne].
    + by rewrite lookup_delete_eq.
    + by rewrite lookup_delete_ne.
Qed.

(** X17. The null id never gets an entry: [connect_to_peer] refuses it,
    and as long as the SDK's connection-established notifications name
    non-null peers, a table without a null key stays without one through
    any sequence of calls, handler assignments and notifications. *)
Theorem null_id_has_no_entry (stub : bool) (cs : list (Call T)) (w : World T) :
  Forall (notifies_only (λ p, p ≠ nullptr)) cs →
  connections w !! nullptr = None →
  connections (world_of (run_calls stub cs w)) !! nullptr = None.
Proof.
  intros Hcs Hw.
  pose proof (run_calls_steps stub true (λ p, p ≠ nullptr) cs w Hcs
                (lifecycle_only_any cs)) as Hs.
  unfold connections in *.
  induction Hs as [|m1 m2 m3 Hu _ IH]; [done|].
  apply IH. by eapply update_no_null.
Qed.

Lemma update_uninit_empty stub lc (m m' : P2PManager) :
  manager_update stub lc (λ _, False) m m' →
  (m_initialized m = false → m_connections m = ∅) →
  (m_initialized m' = false → m_connections m' = ∅).
Proof.
  intros Hu Hm. destruct Hu; simpl; try done; try congruence.
  intros Hi. rewrite (Hm Hi). apply delete_empty.
Qed.

(** X18. The public member functions keep entries only while the manager
    is initialised: through any sequence of calls and handler assignments
    in which the SDK delivers no connection-established notification, a
    manager that is not initialised has an empty table.  The notification
    handler itself is not gated: [handle_connection_established] stores
    an entry whether or not the manager is initialised - also after
    [shutdown], since [unregister_callbacks] removes nothing. *)
Theorem registry_empty_unless_initialized (stub : bool) (cs : list (Call T))
    (w : World T) :
  Forall (notifies_only (λ _, False)) cs →
  (m_initialized (p2p w) = false → connections w = ∅) →
  let w' := world_of (run_calls stub cs w) in
  (m_initialized (p2p w') = false → connections w' = ∅) ∧
  (∀ (w0 : World T) p,
     let e := world_of (handle_connection_established p w0) in
     m_initialized (p2p e) = m_initialized (p2p w0) ∧
     is_Some (connections e !! p)).
Proof.
  intros Hcs Hw w'. split.
  - subst w'.
    pose proof (run_calls_steps stub true (λ _, False) cs w Hcs
                  (lifecycle_only_any cs)) as Hs.
    unfold connections in *.
    induction Hs as [|m1 m2 m3 Hu _ IH]; [done|].
    apply IH. by eapply update_uninit_empty.
  - intros w0 p e. subst e. rewrite handle_connection_established_world.
    unfold world_of, connections. simpl. split; [done|].
    rewrite lookup_insert_eq. eauto.
Qed.

Lemma update_queue_empty stub lc ok (m m' : P2PManager) :
  manager_update stub lc ok m m' →
  m_incoming_packets m = [] → m_incoming_packets m' = [].
Proof. intros Hu Hm. destruct Hu; simpl; try done; congruence. Qed.

(** X19. Nothing in the manager ever puts a packet into
    [m_incoming_packets]: a queue that is empty stays empty through any
    sequence of calls, handler assignments and notifications.  So in the
    stub build, where [receive_packets] reads only that queue, every
    [receive_packets] returns 0 and never calls the packet handler. *)
Theorem stub_queue_stays_empty (stub : bool) (cs : list (Call T)) (w : World T)
    (max_packets : N) :
  m_incoming_packets (p2p w) = [] →
  let w' := world_of (run_calls stub cs w) in
  m_incoming_packets (p2p w') = [] ∧
  receive_packets true max_packets w' = (0, w', []).
Proof.
  intros Hw w'.
  assert (m_incoming_packets (p2p w') = []) as Hq.
  { subst w'.
    pose proof (run_calls_steps stub true (λ _, True) cs w (notifies_only_any cs)
                  (lifecycle_only_any cs)) as Hs.
    induction Hs as [|m1 m2 m3 Hu _ IH]; [done|].
    apply IH. by eapply update_queue_empty. }
  split; [done|]. unfold receive_packets. run.
  destruct (m_initialized (p2p w')); simpl; [|done]. by rewrite Hq.
Qed.

End Invariants.

Section HandlerCalls.
Context {T : Type} `{!EOS_SDK T}.
Context (stub : bool) (P : P2PManager → Event → Prop).
Hypothesis P_handlers :
  ∀ m m' e, handlers_of m' = handlers_of m → P m e → P m' e.
Hypothesis P_transport : ∀ m e, is_transport_call e = true → P m e.
Hypothesis P_packet :
  ∀ m pkt, on_packet_received m = true → P m (Call_on_packet_received pkt).
Hypothesis P_established :
  stub = true → ∀ m p, on_connection_established m = true →
  P m (Call_on_connection_established p Connected).
Hypothesis P_closed :
  stub = true → ∀ m p, on_connection_closed m = true →
  P m (Call_on_connection_closed p Disconnected).

Lemma traces_only_ret {A} (a : A) (w : World T) : traces_only P (ret a) w.
Proof. split; [done|constructor]. Qed.

Lemma traces_only_bind {A B} (m : Op T A) (k : A → Op T B) (w : World T) :
  traces_only P m w →
  traces_only P (k (result_of (m w))) (world_of (m w)) →
  traces_only P (bind m k) w.
Proof.
  unfold traces_only, bind, result_of, world_of, trace_of.
  destruct (m w) as [[a w1] t1]. simpl. destruct (k a w1) as [[b w2] t2]. simpl.
  intros [H1 F1] [H2 F2]. split; [congruence|].
  apply Forall_app. split; [done|].
  eapply Forall_impl; [exact F2|]. intros e. by apply P_handlers.
Qed.

Lemma traces_only_gets {A B} (f : World T → A) (k : A → Op T B) (w : World T) :
  traces_only P (k (f w)) w → traces_only P (bind (gets f) k) w.
Proof.
  intros Hk. apply traces_only_bind; [|done]. split; [done|constructor].
Qed.

Lemma traces_only_modify (f : World T → World T) (w : World T) :
  handlers_of (p2p (f w)) = handlers_of (p2p w) → traces_only P (modify f) w.
Proof. intros Hf. split; [done|constructor]. Qed.

Lemma traces_only_sdk_step (e : Event) (t' : T) (w : World T) :
  is_transport_call e = true → traces_only P (sdk_step e t') w.
Proof.
  intros He. split; [done|]. unfold trace_of. run.
  constructor; [by apply P_transport|constructor].
Qed.

Lemma traces_only_if {A} (b : bool) (m1 m2 : Op T A) (w : World T) :
  (b = true → traces_only P m1 w) → (b = false → traces_only P m2 w) →
  traces_only P (if b then m1 else m2) w.
Proof. destruct b; auto. Qed.

Lemma traces_only_when (b : bool) (e : Event) (w : World T) :
  (b = true → P (p2p w) e) → traces_only P (when b (emit e)) w.
Proof.
  intros Hb. destruct b; [|apply traces_only_ret].
  split; [done|]. constructor; [by apply Hb|constructor].
Qed.

Lemma traces_only_for_each {A} (Q : A → Prop) (f : A → Op T unit) (l : list A) :
  (∀ x w, Q x → traces_only P (f x) w) →
  Forall Q l → ∀ w, traces_only P (for_each f l) w.
Proof.
  intros Hf. induction l as [|x l IH]; intros Hl w; [apply traces_only_ret|].
  apply Forall_cons in Hl as [Hx Hl]. simpl.
  apply traces_only_bind; [by apply Hf|by apply IH].
Qed.

Ltac trace_step :=
  cbv beta;
  lazymatch goal with
  | |- traces_only _ (ret _) _ => apply traces_only_ret
  | |- traces_only _ (bind (gets _) _) _ => apply traces_only_gets
  | |- traces_only _ (bind _ _) _ => apply traces_only_bind
  | |- traces_only _ (modify _) _ => apply traces_only_modify; reflexivity
  | |- traces_only _ (sdk_step _ _) _ => apply traces_only_sdk_step; reflexivity
  | |- traces_only _ (if ?b then _ else _) _ =>
      first [apply traces_only_if; intros ? | destruct b eqn:?]
  | |- traces_only _ (match ?x with _ => _ end) _ => destruct x eqn:?
  end.

Lemma send_packet_traces peer data size chan rel (w : World T) :
  traces_only P (send_packet stub peer data size chan rel) w.
Proof. unfold send_packet. repeat trace_step. Qed.

Lemma accept_connections_traces peer (w : World T) :
  traces_only P (accept_connections stub peer) w.
Proof. unfold accept_connections. repeat trace_step. Qed.

Lemma register_callbacks_traces (w : World T) :
  traces_only P (register_callbacks stub) w.
Proof. unfold register_callbacks. repeat trace_step. Qed.

Lemma initialize_traces config (w : World T) :
  traces_only P (initialize stub config) w.
Proof.
  unfold initialize. repeat trace_step. apply register_callbacks_traces.
Qed.

Lemma connect_to_peer_traces peer (w : World T) :
  traces_only P (connect_to_peer stub peer) w.
Proof.
  unfold connect_to_peer. repeat trace_step.
  - apply traces_only_when. intros Hh. by apply P_established.
  - apply send_packet_traces.
Qed.

Lemma disconnect_from_peer_traces peer (w : World T) :
  traces_only P (disconnect_from_peer stub peer) w.
Proof.
  unfold disconnect_from_peer. repeat trace_step.
  apply traces_only_when. intros Hh. by apply P_closed.
Qed.

Lemma disconnect_all_traces (w : World T) :
  traces_only P (disconnect_all stub) w.
Proof.
  unfold disconnect_all. trace_step.
  apply (traces_only_for_each (λ _, True)); [|by apply Forall_true].
  intros x w0 _. apply disconnect_from_peer_traces.
Qed.

Lemma shutdown_traces (w : World T) : traces_only P (shutdown stub) w.
Proof.
  unfold shutdown, unregister_callbacks. repeat trace_step.
  apply disconnect_all_traces.
Qed.

Lemma broadcast_packet_traces data size chan rel (w : World T) :
  traces_only P (broadcast_packet stub data size chan rel) w.
Proof.
  unfold broadcast_packet. trace_step.
  apply (traces_only_for_each (λ _, True)); [|by apply Forall_true].
  intros x w0 _. trace_step; [apply send_packet_traces|apply traces_only_ret].
Qed.

Lemma receive_loop_stub_traces (q : list IncomingPacket) (max_packets : N) :
  ∀ n (w : World T), traces_only P (receive_loop_stub q max_packets n) w.
Proof.
  induction q as [|packet rest IH]; intros n w; simpl; repeat trace_step.
  - apply traces_only_when. intros Hh. by apply P_packet.
  - apply IH.
Qed.

Lemma receive_loop_sdk_traces (budget : nat) :
  ∀ t n (w : World T), traces_only P (receive_loop_sdk budget t n) w.
Proof.
  induction budget as [|budget IH]; intros t n w; simpl; repeat trace_step.
  - apply traces_only_when. intros Hh. by apply P_packet.
  - apply IH.
Qed.

Lemma receive_packets_traces max_packets (w : World T) :
  traces_only P (receive_packets stub max_packets) w.
Proof.
  unfold receive_packets. repeat trace_step.
  - apply receive_loop_stub_traces.
  - apply receive_loop_sdk_traces.
Qed.

(** Every call but an assignment to the handler fields and the two
    connection notifications. *)
Lemma perform_traces (c : Call T) (w : World T) :
  assigns_no_handler c → ¬ connection_notification c →
  traces_only P (perform stub c) w.
Proof.
  intros Ha Hn. destruct c; simpl in *; try done.
  - trace_step; [apply initialize_traces|apply traces_only_ret].
  - apply shutdown_traces.
  - apply accept_connections_traces.
  - apply connect_to_peer_traces.
  - apply disconnect_from_peer_traces.
  - apply disconnect_all_traces.
  - trace_step; [apply send_packet_traces|apply traces_only_ret].
  - apply broadcast_packet_traces.
  - trace_step; [apply receive_packets_traces|apply traces_only_ret].
  - apply accept_connections_traces.
Qed.

End HandlerCalls.

Section HandlerGuards.
Context {T : Type} `{!EOS_SDK T}.

Lemma handler_registered_handlers (m m' : P2PManager) (e : Event) :
  handlers_of m' = handlers_of m → handler_registered m e → handler_registered m' e.
Proof. unfold handlers_of. intros [= H1 H2 H3]. destruct e; simpl; congruence. Qed.

Lemma handler_registered_transport (m : P2PManager) (e : Event) :
  is_transport_call e = true → handler_registered m e.
Proof. by destruct e. Qed.

Lemma perform_registered (stub : bool) (c : Call T) (w : World T) :
  assigns_no_handler c → traces_only handler_registered (perform stub c) w.
Proof.
  intros Ha.
  assert (¬ connection_notification c →
          traces_only handler_registered (perform stub c) w) as Hgen.
  { intros Hn. apply perform_traces; try done.
    - apply handler_registered_handlers.
    - apply handler_registered_transport. }
  destruct c; try (apply Hgen; simpl; tauto).
  - unfold traces_only, perform, handle_connection_established, world_of, trace_of.
    run. destruct (on_connection_established (p2p w)) eqn:Hh; simpl;
      (split; [done|]); repeat constructor. done.
  - unfold traces_only, perform, handle_connection_closed, world_of, trace_of.
    run. destruct (on_connection_closed (p2p w)) eqn:Hh; simpl;
      (split; [done|]); repeat constructor. done.
Qed.

Lemma unregistered_handler_calls (m : P2PManager) (tr : list Event) :
  handlers_of m = (false, false, false) →
  Forall (handler_registered m) tr → handler_calls tr = [].
Proof.
  unfold handlers_of. intros [= H1 H2 H3]. induction 1 as [|e tr He _ IH]; [done|].
  rewrite handler_calls_cons, IH. destruct e; simpl in *; congruence.
Qed.

(** X21. The manager never calls an empty [std::function] and never
    assigns one: every handler call is behind its [if (on_...)] test.
    Through any sequence of calls and notifications in which the consumer
    does not assign the handler fields, the fields stay as they were and
    every handler called is one that is registered; with no handler
    registered the manager calls none. *)
Theorem handlers_called_only_if_registered (stub : bool) (cs : list (Call T))
    (w : World T) :
  Forall assigns_no_handler cs →
  let r := run_calls stub cs w in
  handlers_of (p2p (world_of r)) = handlers_of (p2p w) ∧
  Forall (handler_registered (p2p w)) (trace_of r) ∧
  (handlers_of (p2p w) = (false, false, false) → handler_calls (trace_of r) = []).
Proof.
  intros Hcs r.
  assert (traces_only handler_registered (run_calls stub cs) w) as [Hh Ht].
  { apply (traces_only_for_each handler_registered handler_registered_handlers
             assigns_no_handler); [|done].
    intros c w0 Hc. by apply perform_registered. }
  split; [done|]. split; [done|].
  intros Hnone. by eapply unregistered_handler_calls.
Qed.

(** X22. In the SDK build the member functions never call the two
    connection handlers themselves: whatever is called, [connect_to_peer]
    and [disconnect_from_peer] included, [on_connection_established] and
    [on_connection_closed] are called only when the SDK delivers its
    connection-established or connection-closed notification. *)
Theorem sdk_build_leaves_connection_handlers_to_notifications
    (cs : list (Call T)) (w : World T) :
  Forall (λ c, ¬ connection_notification c) cs →
  Forall (λ e, is_connection_handler_call e = false)
    (trace_of (run_calls false cs w)).
Proof.
  revert w. induction cs as [|c cs IH]; intros w Hcs; [constructor|].
  apply Forall_cons in Hcs as [Hc Hcs].
  assert (Forall (λ e, is_connection_handler_call e = false)
            (trace_of (perform false c w))) as H1.
  { destruct (decide (trace_of (perform false c w) = [])) as [->|Hne];
      [constructor|].
    apply (perform_traces false (λ _ e, is_connection_handler_call e = false));
      try done.
    - intros _ e He. by destruct e.
    - by destruct c. }
  unfold run_calls in *. simpl. unfold bind, trace_of in *.
  destruct (perform false c w) as [[[] w1] t1]. specialize (IH w1 Hcs).
  destruct (for_each (perform false) cs w1) as [[[] w2] t2]. simpl in *.
  apply Forall_app. by split.
Qed.

End HandlerGuards.

Section Settings.
Context {T : Type} `{!EOS_SDK T}.

Lemma update_keeps_settings stub ok (m m' : P2PManager) :
  manager_update stub false ok m m' →
  m_initialized m' = m_initialized m ∧ m_config m' = m_config m.
Proof. intros Hu. by destruct Hu. Qed.

(** X20. Only [initialize] and [shutdown] write [m_initialized] and
    [m_config]: through any sequence of the other calls, handler
    assignments and notifications the manager stays initialised, or
    uninitialised, as it was and keeps its configuration. *)
Theorem settings_change_only_in_initialize_and_shutdown (stub : bool)
    (cs : list (Call T)) (w : World T) :
  Forall (lifecycle_only false) cs →
  let w' := world_of (run_calls stub cs w) in
  m_initialized (p2p w') = m_initialized (p2p w) ∧
  m_config (p2p w') = m_config (p2p w).
Proof.
  intros Hcs w'. subst w'.
  pose proof (run_calls_steps stub false (λ _, True) cs w (notifies_only_any cs)
                Hcs) as Hs.
  induction Hs as [|m1 m2 m3 Hu _ IH]; [done|].
  apply update_keeps_settings in Hu as [Hi Hc]. rewrite <- Hi, <- Hc. apply IH.
Qed.

End Settings.


Lemma null_id_has_no_entry_witness :
  connections
    (world_of (run_calls true
                 [Call_initialize P2PConfig_default; Call_connect_to_peer nullptr;
                  Notify_connection_established 9; Call_connect_to_peer 7]
                 logged_in_world)) !! nullptr = None.
Proof.
  apply null_id_has_no_entry; [|reflexivity].
  repeat (constructor; [by simpl|]). constructor.
Defined.

Lemma registry_empty_unless_initialized_witness :
  connections
    (world_of (run_calls true
                 [Call_initialize P2PConfig_default; Call_connect_to_peer 7;
                  Call_shutdown]
                 logged_in_world)) = ∅.
Proof.
  refine (proj1 (registry_empty_unless_initialized true _ logged_in_world _ _) _).
  - repeat (constructor; [by simpl|]). constructor.
  - reflexivity.
  - reflexivity.
Defined.

Lemma stub_queue_stays_empty_witness :
  let w' := world_of (run_calls true
                        [Call_initialize P2PConfig_default; Call_connect_to_peer 7]
                        logged_in_world) in
  receive_packets true 10 w' = (0, w', []).
Proof.
  intros w'.
  refine (proj2 (stub_queue_stays_empty true _ logged_in_world 10 _)).
  reflexivity.
Defined.

Lemma settings_change_only_in_initialize_and_shutdown_witness :
  m_config
    (p2p (world_of (run_calls false
                      [Call_connect_to_peer 7; Notify_connection_closed 7;
                       Call_send_packet 7 (Some [x41]) 1 0 ReliableOrdered]
                      (running_world ∅ [] []))))
    = P2PConfig_default.
Proof.
  refine (proj2 (settings_change_only_in_initialize_and_shutdown false _
                   (running_world ∅ [] []) _)).
  repeat (constructor; [by simpl|]). constructor.
Defined.

Lemma handlers_called_only_if_registered_witness :
  handler_calls
    (trace_of (run_calls true
                 [Call_initialize P2PConfig_default; Call_connect_to_peer 7;
                  Notify_connection_established 3; Call_disconnect_from_peer 7]
                 logged_in_world)) = [].
Proof.
  refine (proj2 (proj2 (handlers_called_only_if_registered true _
                          logged_in_world _)) _).
  - repeat (constructor; [by simpl|]). constructor.
  - reflexivity.
Defined.

Lemma sdk_build_leaves_connection_handlers_to_notifications_witness :
  Forall (λ e, is_connection_handler_call e = false)
    (trace_of (run_calls false
                 [Call_connect_to_peer 7; Call_disconnect_from_peer 7]
                 (running_world ∅ [] []))).
Proof.
  apply sdk_build_leaves_connection_handlers_to_notifications.
  repeat (constructor; [simpl; tauto|]). constructor.
Defined.
